(** * Deepgram speech-to-text voice plugin: session and provider model

    A shallow embedding of [src/index.ts]: the utility functions
    ([normalizeBaseUrl], [readErrorResponse]), the streaming session
    ([DeepgramSession]) as a state machine over the events of its
    transport, its timers and its callers, and the provider
    ([DeepgramProvider]) with its configuration, its batch call and its
    session factory.

    Conventions.
    - A JavaScript string is the list of its UTF-16 code units, each an [N].
      Literals are written with [js "..."].
    - A thrown [new Error(msg)] is the value [Error msg]; a method that can
      throw returns a [result].
    - [JSON.parse], the [fetch] call and the [ws] transport are the
      boundary: their results enter as inputs (a parsed message, a
      response, a transport event). *)

From Stdlib Require Import ZArith NArith QArith_base List String Ascii Bool Lia.
From stdpp Require Import base list.
Import ListNotations.

Local Open Scope list_scope.

(** ** JavaScript strings *)

Abbreviation jsstring := (list N).

(** The code units of an ASCII literal. *)
Definition js (s : string) : jsstring :=
  List.map N_of_ascii (list_ascii_of_string s).

(** ECMAScript WhiteSpace and LineTerminator code units: what
    [String.prototype.trim] strips and what the regular expression
    class [\s] matches. *)
Definition is_space (c : N) : bool :=
  ((9 <=? c) && (c <=? 13) || (c =? 32) || (c =? 160) || (c =? 5760)
   || (8192 <=? c) && (c <=? 8202) || (c =? 8232) || (c =? 8233)
   || (c =? 8239) || (c =? 8287) || (c =? 12288) || (c =? 65279))%N.

Fixpoint drop_while {A} (p : A -> bool) (s : list A) : list A :=
  match s with
  | [] => []
  | c :: r => if p c then drop_while p r else s
  end.

(** [s.trimStart()], [s.trimEnd()] and [s.trim()]. *)
Definition trimStart (s : jsstring) : jsstring := drop_while is_space s.
Definition trimEnd (s : jsstring) : jsstring :=
  rev (drop_while is_space (rev s)).
Definition trim (s : jsstring) : jsstring := trimEnd (trimStart s).

(** Truthiness of a string: the empty string is falsy. *)
Definition truthy (s : jsstring) : bool :=
  match s with [] => false | _ => true end.

(** [a || b] on strings. *)
Definition str_or (a b : jsstring) : jsstring := if truthy a then a else b.

Definition SPACE : N := 32.
Definition SLASH : N := 47.
Definition QUOTE : N := 34.

(** [text.replace(/\s+/g, " ")]: every maximal run of white space becomes
    one space.  [in_run] tells that the previous code unit was white
    space, so the run has already been replaced. *)
Fixpoint collapse_from (in_run : bool) (s : jsstring) : jsstring :=
  match s with
  | [] => []
  | c :: r =>
      if is_space c
      then (if in_run then collapse_from true r
            else SPACE :: collapse_from true r)
      else c :: collapse_from false r
  end.

Definition collapse_ws (s : jsstring) : jsstring := collapse_from false s.

(** [raw.replace(/\/+$/, "")]: the trailing run of slashes is removed. *)
Definition strip_trailing_slashes (s : jsstring) : jsstring :=
  rev (drop_while (N.eqb SLASH) (rev s)).

(** [String(n)] for a non-negative integer: its decimal digits. *)
Fixpoint digits_of_uint (d : Decimal.uint) : jsstring :=
  match d with
  | Decimal.Nil => []
  | Decimal.D0 r => 48%N :: digits_of_uint r
  | Decimal.D1 r => 49%N :: digits_of_uint r
  | Decimal.D2 r => 50%N :: digits_of_uint r
  | Decimal.D3 r => 51%N :: digits_of_uint r
  | Decimal.D4 r => 52%N :: digits_of_uint r
  | Decimal.D5 r => 53%N :: digits_of_uint r
  | Decimal.D6 r => 54%N :: digits_of_uint r
  | Decimal.D7 r => 55%N :: digits_of_uint r
  | Decimal.D8 r => 56%N :: digits_of_uint r
  | Decimal.D9 r => 57%N :: digits_of_uint r
  end.

Definition number_to_string (n : N) : jsstring :=
  digits_of_uint (N.to_uint n).

(** ** JavaScript numbers *)

(** A number: a finite value, written as a rational, or one of the three
    values that are not finite. *)
Inductive number : Type :=
| Finite (q : Q)
| NaN
| PosInfinity
| NegInfinity.

(** The number of an integer. *)
Definition of_Z (z : Z) : number := Finite (inject_Z z).

(** [a < b]: false whenever one of the two is [NaN]. *)
Definition num_lt (a b : number) : bool :=
  match a, b with
  | Finite x, Finite y => negb (Qle_bool y x)
  | Finite _, PosInfinity => true
  | NegInfinity, Finite _ => true
  | NegInfinity, PosInfinity => true
  | _, _ => false
  end.

(** [a > b]. *)
Definition num_gt (a b : number) : bool := num_lt b a.

(** [Math.max(a, b)]: [NaN] whenever one of the two is [NaN]. *)
Definition Math_max (a b : number) : number :=
  match a, b with
  | NaN, _ => NaN
  | _, NaN => NaN
  | _, _ => if num_lt a b then b else a
  end.

(** ** Errors and results *)

Inductive error : Type := Error (message : jsstring).

Inductive result (A : Type) : Type :=
| Ok (a : A)
| Throw (e : error).
Arguments Ok {A} a.
Arguments Throw {A} e.

(** ** Utility functions *)

(** [normalizeBaseUrl(baseUrl, fallback)]. *)
Definition normalizeBaseUrl (baseUrl : option jsstring) (fallback : jsstring)
  : jsstring :=
  let raw := match baseUrl with
             | Some b => str_or (trim b) fallback
             | None => fallback
             end in
  strip_trailing_slashes raw.

(** The marker that [readErrorResponse] appends to a cut body, as the
    literal stands in the source file: the three code units U+201A,
    U+00C4, U+00B6. *)
Definition ELLIPSIS : jsstring := [8218; 196; 182]%N.

(** [readErrorResponse(res)]: [text] is [None] when [res.text()] rejects;
    the result is [None] for [undefined]. *)
Definition readErrorResponse (text : option jsstring) : option jsstring :=
  match text with
  | None => None
  | Some t =>
      let collapsed := trim (collapse_ws t) in
      if negb (truthy collapsed) then None
      else if (length collapsed <=? 300)%nat then Some collapsed
      else Some (take 300 collapsed ++ ELLIPSIS)
  end.


(** ** Streaming protocol types *)

(** The [type] tag of an inbound frame; [OtherType] stands for any string
    outside the four that the interface names. *)
Inductive message_type : Type :=
| Results | Metadata | SpeechStarted | UtteranceEnd | OtherType.

Record Alternative : Type := {
  transcript : option jsstring;
  confidence : option Q
}.

Record Channel : Type := {
  alternatives : option (list Alternative)
}.

Record DeepgramStreamMessage : Type := {
  type : message_type;
  channel : option Channel;
  is_final : option bool;
  speech_final : option bool
}.

(** What [JSON.parse(data.toString())] makes of an inbound frame:
    [Unparseable] when it throws. *)
Inductive inbound : Type :=
| Unparseable
| Parsed (m : DeepgramStreamMessage).

(** A property of an object: [Absent] when the object has no such
    property, [Present v] when it has one; [Present None] is a property
    that is there with the value [undefined]. *)
Inductive property (A : Type) : Type :=
| Absent
| Present (v : option A).
Arguments Absent {A}.
Arguments Present {A} v.

(** Reading a property: an absent one reads as [undefined]. *)
Definition read {A} (x : property A) : option A :=
  match x with Absent => None | Present v => v end.

(** [STTOptions] of the host's voice interface, with the properties this
    plugin reads. *)
Record STTOptions : Type := {
  language_property : property jsstring;
  vadEnabled_property : property bool;
  wordTimestamps_property : property bool
}.

(** [o.language], [o.vadEnabled] and [o.wordTimestamps]. *)
Definition language (o : STTOptions) : option jsstring :=
  read (language_property o).
Definition vadEnabled (o : STTOptions) : option bool :=
  read (vadEnabled_property o).
Definition wordTimestamps (o : STTOptions) : option bool :=
  read (wordTimestamps_property o).

Record STTTranscriptChunk : Type := {
  text : jsstring;
  isFinal : bool;
  chunk_confidence : option Q;
  timestamp : Z
}.

(** Truthiness of an optional flag: [undefined] and [false] are falsy. *)
Definition flag (b : option bool) : bool :=
  match b with Some true => true | _ => false end.

(** ** URLs *)

(** A [URL] object that [new URL] has made: the string it was made from
    and its search parameters in order.  Whether [new URL] throws on a
    string is part of [fetch_outcome] below. *)
Record URL : Type := {
  href_base : jsstring;
  searchParams : list (jsstring * jsstring)
}.

Definition new_URL (s : jsstring) : URL :=
  {| href_base := s; searchParams := [] |}.

(** [URLSearchParams.prototype.set]: the first pair named [k] takes the
    value and the later ones go; without one the pair is appended. *)
Fixpoint params_set (k v : jsstring) (l : list (jsstring * jsstring))
  : list (jsstring * jsstring) :=
  match l with
  | [] => [(k, v)]
  | (k', v') :: r =>
      if bool_decide (k' = k)
      then (k, v) :: List.filter (fun p => negb (bool_decide (fst p = k))) r
      else (k', v') :: params_set k v r
  end.

Definition set_param (k v : jsstring) (u : URL) : URL :=
  {| href_base := href_base u; searchParams := params_set k v (searchParams u) |}.

(** [params.get(k)]: the value of the first pair named [k]. *)
Fixpoint params_get (k : jsstring) (l : list (jsstring * jsstring))
  : option jsstring :=
  match l with
  | [] => None
  | (k', v') :: r => if bool_decide (k' = k) then Some v' else params_get k r
  end.

(** ** The transport *)

Inductive ReadyState : Type := CONNECTING | OPEN | CLOSING | CLOSED.

Inductive frame : Type :=
| BinaryFrame (audio : list Byte.byte)
| TextFrame (payload : jsstring).

(** The [WebSocket] object that [connect] creates.  [once_open] and
    [once_error] are the two listeners of the handshake; [installed]
    tells that [setupMessageHandlers] has registered its three
    listeners. *)
Record WebSocket : Type := {
  readyState : ReadyState;
  url : URL;
  authorization : jsstring;
  sent : list frame;
  once_open : bool;
  once_error : bool;
  installed : bool
}.

Definition is_OPEN (r : ReadyState) : bool :=
  match r with OPEN => true | _ => false end.

Definition with_readyState (r : ReadyState) (k : WebSocket) : WebSocket :=
  {| readyState := r; url := url k; authorization := authorization k;
     sent := sent k; once_open := once_open k; once_error := once_error k;
     installed := installed k |}.

Definition with_sent (l : list frame) (k : WebSocket) : WebSocket :=
  {| readyState := readyState k; url := url k;
     authorization := authorization k; sent := l;
     once_open := once_open k; once_error := once_error k;
     installed := installed k |}.

Definition with_listeners (o e i : bool) (k : WebSocket) : WebSocket :=
  {| readyState := readyState k; url := url k;
     authorization := authorization k; sent := sent k;
     once_open := o; once_error := e; installed := i |}.

(** [ws.send(data)]. *)
Definition ws_send (f : frame) (k : WebSocket) : WebSocket :=
  with_sent (sent k ++ [f]) k.

(** [ws.close()] of the transport library: an open or connecting socket
    starts closing, a closing or closed one stays as it is. *)
Definition ws_close (k : WebSocket) : WebSocket :=
  match readyState k with
  | CONNECTING | OPEN => with_readyState CLOSING k
  | CLOSING | CLOSED => k
  end.

(** ** The streaming session *)

Inductive promise_state (A : Type) : Type :=
| Pending
| Resolved (value : A)
| Rejected (reason : error).
Arguments Pending {A}.
Arguments Resolved {A} value.
Arguments Rejected {A} reason.

(** Settling a promise: only a pending one changes. *)
Definition settle {A} (v p : promise_state A) : promise_state A :=
  match p with Pending => v | _ => p end.

Inductive timer_state : Type :=
| Armed (ms : Z)
| Cleared
| Fired.

Definition clearTimeout (t : timer_state) : timer_state :=
  match t with Armed _ => Cleared | _ => t end.

(** One call of [waitForTranscript]: the promise it returns and the timer
    it arms.  The calls of a session are numbered from 0 in the order
    they are made. *)
Record Wait : Type := {
  promise : promise_state jsstring;
  timer : timer_state
}.

(** The fields of a [DeepgramSession].  [ws] tells whether [this.ws] holds
    the socket ([false] for [null]); [partialCallback] names the
    registered function; [resolveTranscript = Some i] is the wrapper
    that call number [i] of [waitForTranscript] stored (it clears timer
    [i] and resolves promise [i]); [rejectTranscript = Some i] is the
    [reject] of promise [i]. *)
Record DeepgramSession : Type := {
  apiKey : jsstring;
  model : jsstring;
  options : STTOptions;
  ws : bool;
  partialCallback : option nat;
  finalTranscript : jsstring;
  ended : bool;
  resolveTranscript : option nat;
  rejectTranscript : option nat
}.

(** The session with the objects it has created: the socket (once
    [connect] has run), the promise of [connect], the waits, and the
    calls made to the partial callback, oldest first. *)
Record World : Type := {
  session : DeepgramSession;
  socket : option WebSocket;
  connected : promise_state unit;
  waits : list Wait;
  delivered : list (nat * STTTranscriptChunk)
}.

Definition with_ws (b : bool) (s : DeepgramSession) : DeepgramSession :=
  {| apiKey := apiKey s; model := model s; options := options s; ws := b;
     partialCallback := partialCallback s;
     finalTranscript := finalTranscript s; ended := ended s;
     resolveTranscript := resolveTranscript s;
     rejectTranscript := rejectTranscript s |}.

Definition with_partialCallback (c : option nat) (s : DeepgramSession)
  : DeepgramSession :=
  {| apiKey := apiKey s; model := model s; options := options s; ws := ws s;
     partialCallback := c;
     finalTranscript := finalTranscript s; ended := ended s;
     resolveTranscript := resolveTranscript s;
     rejectTranscript := rejectTranscript s |}.

Definition with_finalTranscript (t : jsstring) (s : DeepgramSession)
  : DeepgramSession :=
  {| apiKey := apiKey s; model := model s; options := options s; ws := ws s;
     partialCallback := partialCallback s;
     finalTranscript := t; ended := ended s;
     resolveTranscript := resolveTranscript s;
     rejectTranscript := rejectTranscript s |}.

Definition with_ended (b : bool) (s : DeepgramSession) : DeepgramSession :=
  {| apiKey := apiKey s; model := model s; options := options s; ws := ws s;
     partialCallback := partialCallback s;
     finalTranscript := finalTranscript s; ended := b;
     resolveTranscript := resolveTranscript s;
     rejectTranscript := rejectTranscript s |}.

Definition with_handles (r j : option nat) (s : DeepgramSession)
  : DeepgramSession :=
  {| apiKey := apiKey s; model := model s; options := options s; ws := ws s;
     partialCallback := partialCallback s;
     finalTranscript := finalTranscript s; ended := ended s;
     resolveTranscript := r; rejectTranscript := j |}.

Definition with_session (s : DeepgramSession) (w : World) : World :=
  {| session := s; socket := socket w; connected := connected w;
     waits := waits w; delivered := delivered w |}.

Definition with_socket (k : option WebSocket) (w : World) : World :=
  {| session := session w; socket := k; connected := connected w;
     waits := waits w; delivered := delivered w |}.

Definition with_connected (p : promise_state unit) (w : World) : World :=
  {| session := session w; socket := socket w; connected := p;
     waits := waits w; delivered := delivered w |}.

Definition with_waits (l : list Wait) (w : World) : World :=
  {| session := session w; socket := socket w; connected := connected w;
     waits := l; delivered := delivered w |}.

Definition with_delivered (l : list (nat * STTTranscriptChunk)) (w : World)
  : World :=
  {| session := session w; socket := socket w; connected := connected w;
     waits := waits w; delivered := l |}.

(** [new DeepgramSession(apiKey, model, options)]. *)
Definition new_session (k m : jsstring) (o : STTOptions) : World :=
  {| session := {| apiKey := k; model := m; options := o; ws := false;
                   partialCallback := None; finalTranscript := [];
                   ended := false; resolveTranscript := None;
                   rejectTranscript := None |};
     socket := None; connected := Pending; waits := []; delivered := [] |}.

Definition STREAM_URL : jsstring := js "wss://api.deepgram.com/v1/listen".

(** The URL that [connect] builds. *)
Definition connect_url (m : jsstring) (o : STTOptions) : URL :=
  let u0 := set_param (js "model") m (new_URL STREAM_URL) in
  let u1 := match language o with
            | Some l => if truthy (trim l)
                        then set_param (js "language") (trim l) u0 else u0
            | None => u0
            end in
  let u2 := set_param (js "interim_results") (js "true") u1 in
  let u3 := set_param (js "punctuate") (js "true") u2 in
  let u4 := set_param (js "smart_format") (js "true") u3 in
  let u5 := if flag (vadEnabled o)
            then set_param (js "vad_events") (js "true") u4 else u4 in
  if flag (wordTimestamps o)
  then set_param (js "utterance_end_ms") (js "1000") u5 else u5.

(** [connect()] up to the point where it returns its promise: the socket
    is created and the two handshake listeners are registered. *)
Definition connect (w : World) : World :=
  let s := session w in
  let k := {| readyState := CONNECTING;
              url := connect_url (model s) (options s);
              authorization := js "Token " ++ apiKey s;
              sent := []; once_open := true; once_error := true;
              installed := false |} in
  with_connected Pending (with_socket (Some k) (with_session (with_ws true s) w)).

(** The wrapper stored by call [i] of [waitForTranscript]:
    [clearTimeout(timer); originalResolve(text)]. *)
Definition resolve_wait (i : nat) (t : jsstring) (l : list Wait) : list Wait :=
  alter (fun x => {| promise := settle (Resolved t) (promise x);
                     timer := clearTimeout (timer x) |}) i l.

(** The [reject] of promise [i]. *)
Definition reject_wait (i : nat) (e : error) (l : list Wait) : list Wait :=
  alter (fun x => {| promise := settle (Rejected e) (promise x);
                     timer := timer x |}) i l.

(** Truthiness of a stored resolver. *)
Definition has_handle (o : option nat) : bool :=
  match o with Some _ => true | None => false end.

(** [finishTranscript()]. *)
Definition finishTranscript (w : World) : World :=
  let t := trim (finalTranscript (session w)) in
  match resolveTranscript (session w) with
  | Some i => with_waits (resolve_wait i t (waits w)) w
  | None => w
  end.

(** [close()]. *)
Definition close (w : World) : World :=
  let w1 := if ws (session w)
            then with_session (with_ws false (session w))
                   (with_socket (option_map ws_close (socket w)) w)
            else w in
  with_session (with_ended true (session w1)) w1.

(** [message.channel?.alternatives?.[0]]. *)
Definition first_alternative (m : DeepgramStreamMessage) : option Alternative :=
  match channel m with
  | Some c => match alternatives c with
              | Some (a :: _) => Some a
              | _ => None
              end
  | None => None
  end.

(** [alt.transcript?.trim() || ""]. *)
Definition alt_text (a : Alternative) : jsstring :=
  match transcript a with
  | Some t => str_or (trim t) []
  | None => []
  end.

(** [message.is_final || message.speech_final || false]. *)
Definition message_isFinal (m : DeepgramStreamMessage) : bool :=
  flag (is_final m) || flag (speech_final m) || false.

(** [this.finalTranscript += (this.finalTranscript ? " " : "") + text]. *)
Definition append_final (acc t : jsstring) : jsstring :=
  acc ++ (if truthy acc then [SPACE] else []) ++ t.

Definition is_Results (t : message_type) : bool :=
  match t with Results => true | _ => false end.

Definition is_UtteranceEnd (t : message_type) : bool :=
  match t with UtteranceEnd => true | _ => false end.

(** The listener of ["message"]; [now] is the value of [Date.now()].  An
    unparseable frame is caught and logged, which changes nothing
    here. *)
Definition on_message (data : inbound) (now : Z) (w : World) : World :=
  match data with
  | Unparseable => w
  | Parsed m =>
      match (if is_Results (type m) then first_alternative m else None) with
      | Some alt =>
          let t := alt_text alt in
          if truthy t then
            let fin := message_isFinal m in
            let w1 :=
              if fin
              then with_session
                     (with_finalTranscript
                        (append_final (finalTranscript (session w)) t)
                        (session w)) w
              else w in
            match partialCallback (session w1) with
            | Some cb =>
                with_delivered
                  (delivered w1 ++
                   [(cb, {| text := t; isFinal := fin;
                            chunk_confidence := confidence alt;
                            timestamp := now |})]) w1
            | None => w1
            end
          else w
      | None =>
          if is_UtteranceEnd (type m) then
            if flag (vadEnabled (options (session w))) && ended (session w)
            then finishTranscript w
            else w
          else w
      end
  end.

(** The ["open"] event: the transport becomes open and the handshake
    listener [onOpen] runs if it is still registered.  [removeListener]
    and [setupMessageHandlers] go through [this.ws?.], so they do
    nothing when the reference has been cleared. *)
Definition on_open (w : World) : World :=
  match socket w with
  | None => w
  | Some k0 =>
      let k := with_readyState OPEN k0 in
      if once_open k then
        let held := ws (session w) in
        let k' := with_listeners false
                    (if held then false else once_error k)
                    (if held then true else installed k) k in
        with_connected (settle (Resolved tt) (connected w))
          (with_socket (Some k') w)
      else with_socket (Some k) w
  end.

(** The ["error"] event with the message of the error: first the
    handshake listener [onError], then the listener that
    [setupMessageHandlers] installed. *)
Definition on_error (msg : jsstring) (w : World) : World :=
  match socket w with
  | None => w
  | Some k =>
      let w1 :=
        if once_error k then
          let held := ws (session w) in
          with_connected
            (settle (Rejected (Error (js "Deepgram WebSocket connection failed: " ++ msg)))
               (connected w))
            (with_socket
               (Some (with_listeners (if held then false else once_open k)
                        false (installed k) k)) w)
        else w in
      if installed k then
        match rejectTranscript (session w1) with
        | Some i =>
            with_waits
              (reject_wait i (Error (js "Deepgram WebSocket error: " ++ msg))
                 (waits w1)) w1
        | None => w1
        end
      else w1
  end.

(** The ["close"] event: the transport is closed and the installed
    listener finalizes when the session has ended and a resolver is
    stored. *)
Definition on_close (w : World) : World :=
  match socket w with
  | None => w
  | Some k0 =>
      let w1 := with_socket (Some (with_readyState CLOSED k0)) w in
      if installed k0 then
        if ended (session w1) && has_handle (resolveTranscript (session w1))
        then finishTranscript w1
        else w1
      else w1
  end.

(** [{"type":"CloseStream"}], the result of [JSON.stringify]. *)
Definition CLOSE_STREAM : jsstring :=
  [123%N; QUOTE] ++ js "type" ++ [QUOTE; 58%N; QUOTE] ++ js "CloseStream"
  ++ [QUOTE; 125%N].

Definition transport_open (w : World) : bool :=
  ws (session w) &&
  match socket w with
  | Some k => is_OPEN (readyState k)
  | None => false
  end.

(** [sendAudio(audio)]. *)
Definition sendAudio (audio : list Byte.byte) (w : World) : result World :=
  if negb (transport_open w)
  then Throw (Error (js "Deepgram session not connected"))
  else if ended (session w)
  then Throw (Error (js "Session ended, cannot send more audio"))
  else Ok (with_socket (option_map (ws_send (BinaryFrame audio)) (socket w)) w).

(** [endAudio()]. *)
Definition endAudio (w : World) : World :=
  let w1 := with_session (with_ended true (session w)) w in
  if transport_open w1
  then with_socket (option_map (ws_send (TextFrame CLOSE_STREAM)) (socket w1)) w1
  else w1.

(** [onPartial(callback)]. *)
Definition onPartial (cb : nat) (w : World) : World :=
  with_session (with_partialCallback (Some cb) (session w)) w.

Definition DEFAULT_WAIT_MS : Z := 30000.

(** The delay of the timer: the argument, or the default. *)
Definition wait_ms (t : option Z) : Z :=
  match t with Some ms => ms | None => DEFAULT_WAIT_MS end.

Definition TIMEOUT_ERROR : error := Error (js "Transcript timeout").

(** [waitForTranscript(timeoutMs = 30000)]: the new world and the number
    of the call, which names the promise it returns. *)
Definition waitForTranscript (timeoutMs : option Z) (w : World) : World * nat :=
  let i := length (waits w) in
  (with_session (with_handles (Some i) (Some i) (session w))
     (with_waits
        (waits w ++ [{| promise := Pending; timer := Armed (wait_ms timeoutMs) |}])
        w),
   i).

(** The callback of timer [i]: [reject(new Error("Transcript timeout"));
    this.close()].  It runs only while the timer is armed. *)
Definition on_timer (i : nat) (w : World) : World :=
  match waits w !! i with
  | Some {| promise := p; timer := Armed _ |} =>
      close (with_waits
               (<[i := {| promise := settle (Rejected TIMEOUT_ERROR) p;
                          timer := Fired |}]> (waits w)) w)
  | _ => w
  end.

(** ** Events and runs *)

Inductive event : Type :=
| EvOpen
| EvError (msg : jsstring)
| EvMessage (data : inbound) (now : Z)
| EvClose
| EvTimer (i : nat)
| CallSendAudio (audio : list Byte.byte)
| CallEndAudio
| CallOnPartial (cb : nat)
| CallWaitForTranscript (timeoutMs : option Z)
| CallClose.

(** One event.  A transport event reaches the listener of
    [setupMessageHandlers] only when it is installed; a throwing
    [sendAudio] leaves the world as it was. *)
Definition step (w : World) (e : event) : World :=
  match e with
  | EvOpen => on_open w
  | EvError msg => on_error msg w
  | EvMessage data now =>
      match socket w with
      | Some k => if installed k then on_message data now w else w
      | None => w
      end
  | EvClose => on_close w
  | EvTimer i => on_timer i w
  | CallSendAudio audio =>
      match sendAudio audio w with Ok w' => w' | Throw _ => w end
  | CallEndAudio => endAudio w
  | CallOnPartial cb => onPartial cb w
  | CallWaitForTranscript t => fst (waitForTranscript t w)
  | CallClose => close w
  end.

Definition run (w : World) (es : list event) : World := fold_left step es w.

(** A session that [createSession] hands out: connected and open. *)
Definition open_session (k m : jsstring) (o : STTOptions) : World :=
  on_open (connect (new_session k m o)).

(** ** The provider *)

(** [DeepgramConfig]: [None] is an absent property.  A property that is
    present with the value [undefined] is written as the value that
    every use of it in this file makes of [undefined]: the empty string
    for [apiKey], [baseUrl] and [language], the string "undefined" for
    [model], [false] for [wordTimestamps] and [NaN] for [timeoutMs]. *)
Record DeepgramConfig : Type := {
  cfg_apiKey : option jsstring;
  cfg_baseUrl : option jsstring;
  cfg_model : option jsstring;
  cfg_language : option jsstring;
  cfg_wordTimestamps : option bool;
  cfg_timeoutMs : option number
}.

(** The provider's [config] field, every property present. *)
Record ResolvedConfig : Type := {
  rc_apiKey : jsstring;
  rc_baseUrl : jsstring;
  rc_model : jsstring;
  rc_language : jsstring;
  rc_wordTimestamps : bool;
  rc_timeoutMs : number
}.

Definition DEFAULT_baseUrl : jsstring := js "https://api.deepgram.com/v1".
Definition DEFAULT_model : jsstring := js "nova-3".
Definition DEFAULT_language : jsstring := js "en".
Definition DEFAULT_wordTimestamps : bool := false.
Definition DEFAULT_timeoutMs : number := of_Z 30000.

Record DeepgramProvider : Type := {
  config : ResolvedConfig;
  baseUrl : jsstring
}.

Definition opt_str (o : option jsstring) : jsstring := default [] o.

(** [new DeepgramProvider(config)]; [env_key] is
    [process.env.DEEPGRAM_API_KEY]. *)
Definition new_provider (c : DeepgramConfig) (env_key : option jsstring)
  : result DeepgramProvider :=
  let k := str_or (str_or (opt_str (cfg_apiKey c)) (opt_str env_key)) [] in
  if negb (truthy k) then Throw (Error (js "DEEPGRAM_API_KEY is required"))
  else
    let rc := {| rc_apiKey := k;
                 rc_baseUrl := default DEFAULT_baseUrl (cfg_baseUrl c);
                 rc_model := default DEFAULT_model (cfg_model c);
                 rc_language := default DEFAULT_language (cfg_language c);
                 rc_wordTimestamps :=
                   default DEFAULT_wordTimestamps (cfg_wordTimestamps c);
                 rc_timeoutMs := default DEFAULT_timeoutMs (cfg_timeoutMs c) |} in
    Ok {| config := rc;
          baseUrl := normalizeBaseUrl (Some (rc_baseUrl rc)) DEFAULT_baseUrl |}.

(** [l.join(sep)]. *)
Fixpoint join (sep : jsstring) (l : list jsstring) : jsstring :=
  match l with
  | [] => []
  | [x] => x
  | x :: r => x ++ sep ++ join sep r
  end.

Definition validModels : list jsstring :=
  [js "nova-3"; js "nova-2"; js "nova"; js "enhanced"; js "base"].

(** [validModels.includes(m)]. *)
Definition includes (m : jsstring) (l : list jsstring) : bool :=
  existsb (fun x => bool_decide (x = m)) l.

(** What the provider does to the outside: HTTP requests and sockets. *)
Record Request : Type := {
  req_url : URL;
  method : jsstring;
  headers : list (jsstring * jsstring);
  body : option (list Byte.byte);
  abort_after : number
}.

Inductive io_action : Type :=
| Fetch (r : Request)
| OpenSocket (u : URL) (auth : jsstring).

(** A provider method: it may add to the list of actions performed so
    far and returns a value. *)
Definition IO (A : Type) : Type := list io_action -> A * list io_action.

Definition ret {A} (a : A) : IO A := fun log => (a, log).

Definition bind {A B} (m : IO A) (f : A -> IO B) : IO B :=
  fun log => let (a, log') := m log in f a log'.

Definition perform (a : io_action) : IO unit := fun log => (tt, log ++ [a]).

Notation "m 'then_do' k" := (bind m (fun _ => k))
  (at level 100, right associativity).

(** [validateConfig()] without its position in the action list.
    [show] is the conversion of a number to a string that the template
    literal of the timeout message applies. *)
Definition validate (show : number -> jsstring) (p : DeepgramProvider)
  : result unit :=
  let c := config p in
  if negb (truthy (rc_apiKey c))
  then Throw (Error (js "DEEPGRAM_API_KEY is required"))
  else if negb (includes (rc_model c) validModels)
  then Throw (Error (js "Invalid model: " ++ rc_model c ++ js ". Valid: "
                     ++ join (js ", ") validModels))
  else if num_lt (rc_timeoutMs c) (of_Z 1000)
          || num_gt (rc_timeoutMs c) (of_Z 300000)
  then Throw (Error (js "Invalid timeout: " ++ show (rc_timeoutMs c)
                     ++ js "ms (must be 1000-300000)"))
  else Ok tt.

(** [validateConfig()]. *)
Definition validateConfig (show : number -> jsstring) (p : DeepgramProvider)
  : IO (result unit) :=
  ret (validate show p).

(** [{ ...a, ...b }] for one property: a property that [b] has, also
    with the value [undefined], replaces that of [a]. *)
Definition spread {A} (a b : property A) : property A :=
  match b with Absent => a | Present v => Present v end.

(** The options that [createSession] gives the session:
    [{ language, wordTimestamps, ...options }]; without an argument
    nothing is spread. *)
Definition session_options (p : DeepgramProvider) (o : option STTOptions)
  : STTOptions :=
  let c := config p in
  let own := {| language_property := Present (Some (rc_language c));
                vadEnabled_property := Absent;
                wordTimestamps_property := Present (Some (rc_wordTimestamps c)) |} in
  match o with
  | None => own
  | Some o =>
      {| language_property :=
           spread (language_property own) (language_property o);
         vadEnabled_property :=
           spread (vadEnabled_property own) (vadEnabled_property o);
         wordTimestamps_property :=
           spread (wordTimestamps_property own) (wordTimestamps_property o) |}
  end.

(** [createSession(options)] up to the [await]: the session is built and
    its socket is opened; the promise [connected] of the returned world
    settles with the handshake. *)
Definition createSession (p : DeepgramProvider) (o : option STTOptions)
  : IO World :=
  let w := connect (new_session (rc_apiKey (config p)) (rc_model (config p))
                      (session_options p o)) in
  match socket w with
  | Some k => perform (OpenSocket (url k) (authorization k)) then_do ret w
  | None => ret w
  end.

(** The URL of the batch call. *)
Definition transcribe_url (p : DeepgramProvider) (o : option STTOptions) : URL :=
  let c := config p in
  let u0 := set_param (js "model") (rc_model c)
              (new_URL (baseUrl p ++ js "/listen")) in
  let lang := str_or (opt_str (o ≫= language)) (rc_language c) in
  let u1 := if truthy (trim lang)
            then set_param (js "language") (trim lang) u0 else u0 in
  let u2 := set_param (js "punctuate") (js "true") u1 in
  let u3 := set_param (js "smart_format") (js "true") u2 in
  if flag (o ≫= wordTimestamps) || rc_wordTimestamps c
  then set_param (js "utterances") (js "true") u3 else u3.

Definition transcribe_request (p : DeepgramProvider) (audio : list Byte.byte)
  (o : option STTOptions) : Request :=
  {| req_url := transcribe_url p o;
     method := js "POST";
     headers := [(js "Authorization", js "Token " ++ rc_apiKey (config p));
                 (js "Content-Type", js "application/octet-stream")];
     body := Some audio;
     abort_after := Math_max (of_Z 1) (rc_timeoutMs (config p)) |}.

(** The batch payload: [results?.channels?.[i]?.alternatives?.[j]]. *)
Record BatchResults : Type := {
  channels : option (list Channel)
}.

Record DeepgramTranscriptResponse : Type := {
  results : option BatchResults
}.

(** An HTTP response: its status, what [text()] gives ([None] when it
    rejects) and what [json()] gives. *)
Record Response : Type := {
  status : N;
  body_text : option jsstring;
  body_json : result DeepgramTranscriptResponse
}.

(** [res.ok]: the status is in the range 200 to 299. *)
Definition ok (r : Response) : bool :=
  ((200 <=? status r) && (status r <=? 299))%N.

(** What becomes of a request that the provider has put together:
    [new URL] throws on its address, which is then no absolute URL, and
    nothing is sent; or the request is sent and [fetchWithTimeout]
    rejects (network failure or abort); or it gives a response. *)
Inductive fetch_outcome : Type :=
| InvalidURL
| FetchRejects (e : error)
| Responds (r : Response).

(** The [TypeError] that [new URL] throws. *)
Definition INVALID_URL : error := Error (js "Invalid URL").

(** [payload.results?.channels?.[0]?.alternatives?.[0]?.transcript]. *)
Definition top_transcript (d : DeepgramTranscriptResponse) : option jsstring :=
  r ← results d;
  cs ← channels r;
  c ← head cs;
  al ← alternatives c;
  a ← head al;
  transcript a.

(** [payload.results?.channels?.[0]?.alternatives?.[0]?.transcript?.trim()]. *)
Definition payload_transcript (d : DeepgramTranscriptResponse) : option jsstring :=
  t ← top_transcript d; Some (trim t).

Definition MISSING_TRANSCRIPT : error :=
  Error (js "Deepgram response missing transcript").

(** How [transcribe] ends, by what becomes of its request. *)
Definition transcribe_response (out : fetch_outcome) : result jsstring :=
  match out with
  | InvalidURL => Throw INVALID_URL
  | FetchRejects e => Throw e
  | Responds r =>
      if negb (ok r) then
        let suffix := match readErrorResponse (body_text r) with
                      | Some d => if truthy d then js ": " ++ d else []
                      | None => []
                      end in
        Throw (Error (js "Deepgram transcription failed (HTTP "
                      ++ number_to_string (status r) ++ js ")" ++ suffix))
      else
        match body_json r with
        | Throw e => Throw e
        | Ok d =>
            match payload_transcript d with
            | Some t => if truthy t then Ok t else Throw MISSING_TRANSCRIPT
            | None => Throw MISSING_TRANSCRIPT
            end
        end
  end.

(** [transcribe(audio, options)]; [net] tells what becomes of the
    request.  When [new URL] throws, no request is made. *)
Definition transcribe (p : DeepgramProvider) (audio : list Byte.byte)
  (o : option STTOptions) (net : Request -> fetch_outcome)
  : IO (result jsstring) :=
  let rq := transcribe_request p audio o in
  match net rq with
  | InvalidURL => ret (transcribe_response InvalidURL)
  | out => perform (Fetch rq) then_do ret (transcribe_response out)
  end.

(** The request of [healthCheck()]. *)
Definition healthCheck_request (p : DeepgramProvider) : Request :=
  {| req_url := set_param (js "model") (rc_model (config p))
                  (new_URL (baseUrl p ++ js "/listen"));
     method := js "GET";
     headers := [(js "Authorization", js "Token " ++ rc_apiKey (config p))];
     body := None;
     abort_after := Math_max (of_Z 1) (of_Z 5000) |}.

(** [healthCheck()]: the [catch] turns a throwing [new URL] and a
    rejected request into [false]. *)
Definition healthCheck (p : DeepgramProvider) (net : Request -> fetch_outcome)
  : IO bool :=
  let rq := healthCheck_request p in
  match net rq with
  | InvalidURL => ret false
  | FetchRejects _ => perform (Fetch rq) then_do ret false
  | Responds r => perform (Fetch rq) then_do ret ((status r =? 405)%N || ok r)
  end.

(** ** The plugin *)

(** [String(err)] for an [Error]: the name, and the message when there
    is one. *)
Definition error_to_string (e : error) : jsstring :=
  match e with
  | Error [] => js "Error"
  | Error m => js "Error: " ++ m
  end.

Inductive log_entry : Type :=
| LogInfo (s : jsstring)
| LogError (s : jsstring).

(** The module variable [provider] and what the host context has
    received: the providers registered and the log calls, oldest
    first. *)
Record Plugin : Type := {
  provider : option DeepgramProvider;
  registered : list DeepgramProvider;
  host_log : list log_entry
}.

(** [plugin.init(ctx)]; [c] is [ctx.getConfig()] and [env_key] is
    [process.env.DEEPGRAM_API_KEY].  [validateConfig] performs no action
    on the outside, so only its outcome [validate] appears; [show] is
    the conversion of a number to a string that [validate] uses. *)
Definition init (show : number -> jsstring) (c : DeepgramConfig)
  (env_key : option jsstring) (st : Plugin) : result unit * Plugin :=
  let failed (e : error) (pv : option DeepgramProvider) :=
    (Throw e,
     {| provider := pv; registered := registered st;
        host_log := host_log st ++
                    [LogError (js "Failed to register Deepgram STT: "
                               ++ error_to_string e)] |}) in
  match new_provider c env_key with
  | Throw e => failed e (provider st)
  | Ok p =>
      match validate show p with
      | Throw e => failed e (Some p)
      | Ok _ =>
          (Ok tt,
           {| provider := Some p; registered := registered st ++ [p];
              host_log := host_log st ++
                          [LogInfo (js "Deepgram STT provider registered")] |})
      end
  end.

(** [plugin.shutdown()]. *)
Definition shutdown (st : Plugin) : Plugin :=
  {| provider := None; registered := registered st; host_log := host_log st |}.

(** * Vocabulary of the properties and sample inputs *)

Definition starts_with_space (s : jsstring) : bool :=
  match s with c :: _ => is_space c | [] => false end.

Definition ends_with_space (s : jsstring) : bool := starts_with_space (rev s).

(** No white space at either end. *)
Definition clean (s : jsstring) : Prop :=
  starts_with_space s = false /\ ends_with_space s = false.

(** The fragment that an event adds to the accumulated text, if any: the
    trimmed transcript of a [Results] message that has a first
    alternative, is not empty after trimming and is marked final. *)
Definition final_fragment (e : event) : option jsstring :=
  match e with
  | EvMessage (Parsed m) _ =>
      if is_Results (type m) then
        match first_alternative m with
        | Some a =>
            if truthy (alt_text a) && message_isFinal m
            then Some (alt_text a) else None
        | None => None
        end
      else None
  | _ => None
  end.

(** The final fragments of a run, in arrival order. *)
Definition final_fragments (es : list event) : list jsstring :=
  omap final_fragment es.

(** The listeners of [setupMessageHandlers] are registered. *)
Definition handlers_installed (w : World) : bool :=
  match socket w with Some k => installed k | None => false end.

(** A [Results] frame marked final whose first alternative carries the
    transcript [t]. *)
Definition final_result (t : jsstring) : inbound :=
  Parsed {| type := Results;
            channel := Some {| alternatives :=
                                 Some [{| transcript := Some t;
                                          confidence := None |}] |};
            is_final := Some true;
            speech_final := None |}.

(** One such frame for each transcript of [ts], in order. *)
Definition final_events (ts : list jsstring) : list event :=
  List.map (fun t => EvMessage (final_result t) 0) ts.

(** Options with voice activity detection on, and an [UtteranceEnd]
    frame. *)
Definition vad_options : STTOptions :=
  {| language_property := Present (Some (js "en"));
     vadEnabled_property := Present (Some true);
     wordTimestamps_property := Absent |}.

Definition utterance_end_message : DeepgramStreamMessage :=
  {| type := UtteranceEnd; channel := None; is_final := None;
     speech_final := None |}.

(** Wait [i] exists, and while its promise is pending its timer is
    armed with [ms]. *)
Definition tracked (i : nat) (ms : Z) (l : list Wait) : Prop :=
  exists x, l !! i = Some x /\ (promise x = Pending -> timer x = Armed ms).

(** The collapsed and trimmed body that [readErrorResponse] works on;
    empty when [text()] rejects. *)
Definition collapsed_body (r : Response) : jsstring :=
  match body_text r with
  | Some b => trim (collapse_ws b)
  | None => []
  end.

Definition FAILED_PREFIX : jsstring := js "Deepgram transcription failed (HTTP ".

(** A configuration that gives only the key, and the provider made from
    it. *)
Definition key_only : DeepgramConfig :=
  {| cfg_apiKey := Some (js "key"); cfg_baseUrl := None; cfg_model := None;
     cfg_language := None; cfg_wordTimestamps := None; cfg_timeoutMs := None |}.

Definition default_provider : DeepgramProvider :=
  {| config := {| rc_apiKey := js "key"; rc_baseUrl := DEFAULT_baseUrl;
                  rc_model := DEFAULT_model; rc_language := DEFAULT_language;
                  rc_wordTimestamps := DEFAULT_wordTimestamps;
                  rc_timeoutMs := DEFAULT_timeoutMs |};
     baseUrl := DEFAULT_baseUrl |}.

(** A payload whose only alternative carries [t]. *)
Definition payload_with (t : option jsstring) : DeepgramTranscriptResponse :=
  {| results :=
       Some {| channels :=
                 Some [{| alternatives :=
                            Some [{| transcript := t; confidence := None |}] |}] |} |}.

(** A success response whose transcript is blank, and a 401 response
    with body [b]. *)
Definition blank_success : Response :=
  {| status := 200; body_text := None;
     body_json := Ok (payload_with (Some (js "   "))) |}.

Definition unauthorized (b : jsstring) : Response :=
  {| status := 401; body_text := Some b;
     body_json := Throw (Error (js "Unexpected token")) |}.

(** A provider with the given model and timeout. *)
Definition with_model_timeout (m : jsstring) (t : number) : DeepgramProvider :=
  {| config := {| rc_apiKey := js "key"; rc_baseUrl := DEFAULT_baseUrl;
                  rc_model := m; rc_language := DEFAULT_language;
                  rc_wordTimestamps := DEFAULT_wordTimestamps;
                  rc_timeoutMs := t |};
     baseUrl := DEFAULT_baseUrl |}.

(** A provider configured with word timestamps on. *)
Definition timestamps_provider : DeepgramProvider :=
  {| config := {| rc_apiKey := js "key"; rc_baseUrl := DEFAULT_baseUrl;
                  rc_model := DEFAULT_model; rc_language := DEFAULT_language;
                  rc_wordTimestamps := true;
                  rc_timeoutMs := DEFAULT_timeoutMs |};
     baseUrl := DEFAULT_baseUrl |}.

Definition timestamps_config : DeepgramConfig :=
  {| cfg_apiKey := Some (js "key"); cfg_baseUrl := None; cfg_model := None;
     cfg_language := None; cfg_wordTimestamps := Some true;
     cfg_timeoutMs := None |}.

(** The caller switches word timestamps off. *)
Definition without_timestamps : STTOptions :=
  {| language_property := Absent; vadEnabled_property := Absent;
     wordTimestamps_property := Present (Some false) |}.

(** The caller gives the empty language. *)
Definition without_language : STTOptions :=
  {| language_property := Present (Some []); vadEnabled_property := Absent;
     wordTimestamps_property := Absent |}.

(** The URL of the socket that [createSession] opens. *)
Definition session_url (p : DeepgramProvider) (o : option STTOptions) : URL :=
  connect_url (rc_model (config p)) (session_options p o).

(** The configuration [c] with another base URL. *)
Definition set_baseUrl (b : option jsstring) (c : DeepgramConfig)
  : DeepgramConfig :=
  {| cfg_apiKey := cfg_apiKey c; cfg_baseUrl := b; cfg_model := cfg_model c;
     cfg_language := cfg_language c;
     cfg_wordTimestamps := cfg_wordTimestamps c;
     cfg_timeoutMs := cfg_timeoutMs c |}.

(** The provider made from [key_only] with a base URL of its own. *)
Definition custom_provider : DeepgramProvider :=
  {| config := {| rc_apiKey := js "key";
                  rc_baseUrl := js " https://proxy.example/v2// ";
                  rc_model := DEFAULT_model; rc_language := DEFAULT_language;
                  rc_wordTimestamps := DEFAULT_wordTimestamps;
                  rc_timeoutMs := DEFAULT_timeoutMs |};
     baseUrl := js "https://proxy.example/v2" |}.

(** The chunk that the ["message"] listener hands to the partial
    callback for an event, if any: a [Results] frame with a first
    alternative whose trimmed transcript is not empty. *)
Definition result_chunk (e : event) : option STTTranscriptChunk :=
  match e with
  | EvMessage (Parsed m) now =>
      if is_Results (type m) then
        match first_alternative m with
        | Some a =>
            if truthy (alt_text a)
            then Some {| text := alt_text a; isFinal := message_isFinal m;
                         chunk_confidence := confidence a; timestamp := now |}
            else None
        | None => None
        end
      else None
  | _ => None
  end.

(** The calls that a run makes to partial callbacks, oldest first, when
    it starts with the callback [cb] registered: each chunk goes to the
    callback registered last before it arrives. *)
Fixpoint deliveries (cb : option nat) (es : list event)
  : list (nat * STTTranscriptChunk) :=
  match es with
  | [] => []
  | CallOnPartial c :: r => deliveries (Some c) r
  | e :: r =>
      match cb, result_chunk e with
      | Some c, Some ch => (c, ch) :: deliveries cb r
      | _, _ => deliveries cb r
      end
  end.

(** Wait [i] exists and its promise is [p]. *)
Definition promise_is (i : nat) (p : promise_state jsstring) (l : list Wait)
  : Prop :=
  exists x, l !! i = Some x /\ promise x = p.

(** A frame that the ["message"] listener passes over: unparseable, or of
    another type than [Results] and [UtteranceEnd], or a [Results] frame
    without a first alternative or with a blank transcript. *)
Definition ignored_frame (data : inbound) : bool :=
  match data with
  | Unparseable => true
  | Parsed m =>
      match type m with
      | UtteranceEnd => false
      | Results =>
          match first_alternative m with
          | Some a => negb (truthy (alt_text a))
          | None => true
          end
      | _ => true
      end
  end.

(** No two white-space code units in a row, and every white-space code
    unit is a space. *)
Fixpoint single_spaced (s : jsstring) : bool :=
  match s with
  | [] => true
  | c :: r =>
      (if is_space c
       then (c =? SPACE)%N && negb (starts_with_space r)
       else true)
      && single_spaced r
  end.

(** The socket of a world is in the given handshake state. *)
Definition listeners_are (o e i : bool) (w : World) : Prop :=
  exists k, socket w = Some k
            /\ once_open k = o /\ once_error k = e /\ installed k = i.

(** A plugin that has not been initialized. *)
Definition fresh_plugin : Plugin :=
  {| provider := None; registered := []; host_log := [] |}.

(** The credential that the constructor settles on:
    [config.apiKey || process.env.DEEPGRAM_API_KEY || ""]. *)
Definition chosen_key (c : DeepgramConfig) (env_key : option jsstring)
  : jsstring :=
  match cfg_apiKey c with
  | Some (x :: k) => x :: k
  | _ => match env_key with Some k => k | None => [] end
  end.

(** The audio of a binary frame. *)
Definition frame_audio (f : frame) : option (list Byte.byte) :=
  match f with BinaryFrame a => Some a | TextFrame _ => None end.

(** The audio chunks that the transport has sent, oldest first. *)
Definition audio_sent (w : World) : list (list Byte.byte) :=
  match socket w with
  | Some k => omap frame_audio (sent k)
  | None => []
  end.

(** The error with which the installed ["error"] listener rejects. *)
Definition transport_error (msg : jsstring) : error :=
  Error (js "Deepgram WebSocket error: " ++ msg).

(** A finite number between 1000 and 300000, both included. *)
Definition within_range (t : number) : Prop :=
  match t with
  | Finite q => (inject_Z 1000 <= q)%Q /\ (q <= inject_Z 300000)%Q
  | _ => False
  end.

(** The property that the caller's options have under a name; absent
    when the caller gives no options. *)
Definition caller_property {A} (o : option STTOptions)
  (f : STTOptions -> property A) : property A :=
  match o with Some o' => f o' | None => Absent end.

(** Options whose language and word-timestamp flag are present with the
    value [undefined]. *)
Definition undefined_options : STTOptions :=
  {| language_property := Present None; vadEnabled_property := Absent;
     wordTimestamps_property := Present None |}.

(** * Properties *)

(** Unfolds one event and splits on every test the handlers make. *)
Ltac split_step :=
  unfold step, on_open, on_error, on_close, on_timer, on_message, close,
    endAudio, onPartial, waitForTranscript, sendAudio, finishTranscript,
    transport_open, ws_close, ws_send, option_map in *;
  unfold with_session, with_socket, with_connected, with_waits,
    with_delivered, with_ws, with_ended, with_handles, with_partialCallback,
    with_finalTranscript, with_readyState, with_sent, with_listeners in *;
  simpl in *;
  repeat (case_match; simplify_eq; simpl in *; simplify_eq; try done);
  try done.

(** Uses the recorded value of a test inside the other hypotheses. *)
Ltac use_tests :=
  repeat match goal with
         | H1 : ?b = true, H2 : context [?b] |- _ =>
             lazymatch type of H2 with
             | b = true => fail
             | _ => rewrite H1 in H2; simpl in H2
             end
         | H1 : ?b = false, H2 : context [?b] |- _ =>
             lazymatch type of H2 with
             | b = false => fail
             | _ => rewrite H1 in H2; simpl in H2
             end
         end;
  try done.

(** ** White space at the ends of a string *)

Lemma drop_while_starts (s : jsstring) :
  starts_with_space (drop_while is_space s) = false.
Proof.
  induction s as [|c r IH]; simpl; [reflexivity|].
  destruct (is_space c) eqn:E; [exact IH|]. simpl. exact E.
Qed.

Lemma drop_while_id (s : jsstring) :
  starts_with_space s = false -> drop_while is_space s = s.
Proof.
  destruct s as [|c r]; simpl; [reflexivity|]. intros ->. reflexivity.
Qed.

Lemma drop_while_suffix {A} (p : A -> bool) (s : list A) :
  exists pre, s = pre ++ drop_while p s /\ forallb p pre = true.
Proof.
  induction s as [|c r IH]; simpl.
  - exists []. split; reflexivity.
  - destruct (p c) eqn:E.
    + destruct IH as (pre & Hs & Hp). exists (c :: pre). split.
      * simpl. f_equal. exact Hs.
      * simpl. rewrite E. exact Hp.
    + exists []. split; reflexivity.
Qed.

Lemma trimEnd_prefix (s : jsstring) :
  exists post, s = trimEnd s ++ post /\ forallb is_space post = true.
Proof.
  unfold trimEnd.
  destruct (drop_while_suffix is_space (rev s)) as (pre & Hs & Hp).
  exists (rev pre). split.
  - rewrite <- rev_app_distr, <- Hs, rev_involutive. reflexivity.
  - rewrite forallb_forall in *. intros x Hx. apply Hp.
    apply in_rev. exact Hx.
Qed.

Lemma trimEnd_ends (s : jsstring) : ends_with_space (trimEnd s) = false.
Proof.
  unfold ends_with_space, trimEnd. rewrite rev_involutive.
  apply drop_while_starts.
Qed.

Lemma trimEnd_starts (s : jsstring) :
  starts_with_space s = false -> starts_with_space (trimEnd s) = false.
Proof.
  intros H. destruct (trimEnd_prefix s) as (post & Hs & _).
  destruct (trimEnd s) as [|c r] eqn:E; [reflexivity|].
  rewrite Hs in H. simpl in *. exact H.
Qed.

Lemma trimEnd_id (s : jsstring) : ends_with_space s = false -> trimEnd s = s.
Proof.
  unfold ends_with_space, trimEnd. intros H.
  rewrite drop_while_id by exact H. apply rev_involutive.
Qed.

Lemma trim_clean (s : jsstring) : clean (trim s).
Proof.
  unfold trim, trimStart. split.
  - apply trimEnd_starts, drop_while_starts.
  - apply trimEnd_ends.
Qed.

Lemma trim_id (s : jsstring) : clean s -> trim s = s.
Proof.
  intros [H1 H2]. unfold trim, trimStart.
  rewrite drop_while_id by exact H1. apply trimEnd_id, H2.
Qed.

Lemma clean_nil : clean [].
Proof. split; reflexivity. Qed.

Lemma ends_with_space_app (a b : jsstring) :
  truthy b = true -> ends_with_space (a ++ b) = ends_with_space b.
Proof.
  unfold ends_with_space. rewrite rev_app_distr.
  destruct b as [|c r] using rev_ind; [discriminate|].
  intros _. rewrite rev_app_distr. reflexivity.
Qed.

Lemma starts_with_space_app (a b : jsstring) :
  truthy a = true -> starts_with_space (a ++ b) = starts_with_space a.
Proof. destruct a; [discriminate|reflexivity]. Qed.

Lemma truthy_app_r (a b : jsstring) : truthy b = true -> truthy (a ++ b) = true.
Proof. destruct a; simpl; [tauto|reflexivity]. Qed.

(** Appending a clean non-empty fragment keeps the accumulated text
    clean and makes it non-empty. *)
Lemma append_final_clean (acc t : jsstring) :
  clean acc -> clean t -> truthy t = true ->
  clean (append_final acc t) /\ truthy (append_final acc t) = true.
Proof.
  intros [Ha1 Ha2] [Ht1 Ht2] Ht. unfold append_final.
  destruct acc as [|c r]; simpl.
  - repeat split; assumption.
  - repeat split.
    + exact Ha1.
    + change (c :: r ++ SPACE :: t) with ((c :: r) ++ (SPACE :: t)).
      change (SPACE :: t) with ([SPACE] ++ t).
      rewrite !ends_with_space_app; auto.
Qed.

(** [append_final] adds at the end. *)
Lemma append_final_prefix (acc t : jsstring) :
  exists suffix, append_final acc t = acc ++ suffix.
Proof. unfold append_final. eexists. reflexivity. Qed.

(** ** Joining fragments *)

Lemma join_cons (sep x : jsstring) (l : list jsstring) :
  l <> [] -> join sep (x :: l) = x ++ sep ++ join sep l.
Proof. destruct l; [congruence|reflexivity]. Qed.

Lemma join_truthy (sep : jsstring) (l : list jsstring) :
  l <> [] -> Forall (fun f => truthy f = true) l -> truthy (join sep l) = true.
Proof.
  destruct l as [|x r]; [congruence|]. intros _ H.
  inversion H as [|? ? Hx Hr]; subst.
  destruct r; simpl.
  - exact Hx.
  - destruct x; [discriminate|reflexivity].
Qed.

Lemma join_snoc (l : list jsstring) (t : jsstring) :
  Forall (fun f => truthy f = true) l ->
  join [SPACE] (l ++ [t]) = append_final (join [SPACE] l) t.
Proof.
  induction l as [|x r IH]; intros H.
  - reflexivity.
  - inversion H as [|? ? Hx Hr]; subst.
    destruct r as [|y r'].
    + simpl. unfold append_final. rewrite Hx. reflexivity.
    + change ((x :: y :: r') ++ [t]) with (x :: ((y :: r') ++ [t])).
      rewrite (join_cons [SPACE] x ((y :: r') ++ [t])) by discriminate.
      rewrite IH by exact Hr.
      rewrite (join_cons [SPACE] x (y :: r')) by discriminate.
      unfold append_final.
      rewrite (join_truthy [SPACE] (y :: r')) by (auto; discriminate).
      rewrite (truthy_app_r x) by
        (apply truthy_app_r, join_truthy; [discriminate|exact Hr]).
      rewrite <- !app_assoc. reflexivity.
Qed.

Lemma fold_append_final (fs l : list jsstring) :
  Forall (fun f => truthy f = true) l ->
  Forall (fun f => truthy f = true) fs ->
  fold_left append_final fs (join [SPACE] l) = join [SPACE] (l ++ fs).
Proof.
  revert l. induction fs as [|t r IH]; intros l Hl Hfs.
  - rewrite app_nil_r. reflexivity.
  - inversion Hfs as [|? ? Ht Hr]; subst. simpl.
    rewrite <- join_snoc by exact Hl.
    rewrite IH.
    + rewrite <- app_assoc. reflexivity.
    + apply Forall_app. split; [exact Hl|]. constructor; [exact Ht|constructor].
    + exact Hr.
Qed.

(** ** The accumulated transcript along a run *)

Lemma installed_step (w : World) (e : event) :
  handlers_installed w = true -> handlers_installed (step w e) = true.
Proof.
  unfold handlers_installed. destruct e; intros H; split_step.
Qed.

Lemma installed_run (es : list event) (w : World) :
  handlers_installed w = true -> handlers_installed (run w es) = true.
Proof.
  revert w. induction es as [|e r IH]; intros w H; [exact H|].
  simpl. apply IH, installed_step, H.
Qed.

Lemma installed_open_session (k m : jsstring) (o : STTOptions) :
  handlers_installed (open_session k m o) = true.
Proof. reflexivity. Qed.

Lemma finalTranscript_step (w : World) (e : event) :
  handlers_installed w = true ->
  finalTranscript (session (step w e)) =
  match final_fragment e with
  | Some t => append_final (finalTranscript (session w)) t
  | None => finalTranscript (session w)
  end.
Proof.
  unfold handlers_installed, final_fragment. destruct e; intros H; split_step.
  all: use_tests.
Qed.

Lemma finalTranscript_run (es : list event) (w : World) :
  handlers_installed w = true ->
  finalTranscript (session (run w es)) =
  fold_left append_final (final_fragments es) (finalTranscript (session w)).
Proof.
  revert w. induction es as [|e r IH]; intros w H; [reflexivity|].
  simpl. rewrite IH by (apply installed_step, H).
  rewrite finalTranscript_step by exact H.
  unfold final_fragments. simpl.
  destruct (final_fragment e); reflexivity.
Qed.

Lemma alt_text_clean (a : Alternative) : clean (alt_text a).
Proof.
  unfold alt_text. destruct (transcript a) as [t|]; [|apply clean_nil].
  unfold str_or. destruct (truthy (trim t)); [apply trim_clean|apply clean_nil].
Qed.

Lemma final_fragment_spec (e : event) (t : jsstring) :
  final_fragment e = Some t -> clean t /\ truthy t = true.
Proof.
  unfold final_fragment. intros H.
  repeat (case_match; simplify_eq; try done).
  split; [apply alt_text_clean|].
  match goal with
  | H' : _ && _ = true |- _ => apply andb_true_iff in H'; tauto
  end.
Qed.

Lemma final_fragments_spec (es : list event) :
  Forall (fun t => clean t /\ truthy t = true) (final_fragments es).
Proof.
  unfold final_fragments. induction es as [|e r IH]; simpl; [constructor|].
  destruct (final_fragment e) eqn:E; [|exact IH].
  constructor; [apply (final_fragment_spec e), E|exact IH].
Qed.

Lemma join_clean (l : list jsstring) :
  Forall (fun t => clean t /\ truthy t = true) l -> clean (join [SPACE] l).
Proof.
  induction l as [|t r IH] using rev_ind; intros H; [apply clean_nil|].
  apply Forall_app in H as [Hr Ht]. inversion Ht as [|? ? [Hc Hn] _]; subst.
  rewrite join_snoc by (eapply Forall_impl; [exact Hr|]; simpl; tauto).
  apply append_final_clean; auto.
Qed.

Lemma finalTranscript_open_run (k m : jsstring) (o : STTOptions)
  (es : list event) :
  finalTranscript (session (run (open_session k m o) es)) =
  join [SPACE] (final_fragments es).
Proof.
  rewrite finalTranscript_run by apply installed_open_session.
  change (finalTranscript (session (open_session k m o)))
    with (join [SPACE] []).
  rewrite fold_append_final; [reflexivity|constructor|].
  eapply Forall_impl; [apply final_fragments_spec|]. simpl. tauto.
Qed.

(** Every event leaves the accumulated text as it is or adds at its
    end. *)
Lemma finalTranscript_append_only (w : World) (e : event) :
  exists suffix,
    finalTranscript (session (step w e)) = finalTranscript (session w) ++ suffix.
Proof.
  destruct e; split_step;
    solve [ exists []; rewrite app_nil_r; reflexivity
          | apply append_final_prefix ].
Qed.

(** What the wait just registered receives when the session finalizes. *)
Lemma finish_after_wait (t : option Z) (w : World) :
  let (w1, i) := waitForTranscript t w in
  promise <$> waits (finishTranscript w1) !! i =
  Some (Resolved (trim (finalTranscript (session w)))).
Proof.
  unfold waitForTranscript, finishTranscript, resolve_wait. simpl.
  rewrite list_lookup_alter_eq, lookup_app_r by lia.
  rewrite Nat.sub_diag. reflexivity.
Qed.

Lemma final_fragments_final_events (ts : list jsstring) :
  final_fragments (final_events ts) = List.filter truthy (List.map trim ts).
Proof.
  unfold final_fragments, final_events.
  induction ts as [|t r IH]; [reflexivity|].
  simpl. rewrite <- IH. unfold alt_text, str_or. simpl.
  destruct (truthy (trim t)) eqn:E; simpl; rewrite ?E; reflexivity.
Qed.

Lemma filter_trim_clean (ts : list jsstring) :
  Forall (fun t => clean t /\ truthy t = true) ts ->
  List.filter truthy (List.map trim ts) = ts.
Proof.
  induction 1 as [|t r [Hc Ht] _ IH]; [reflexivity|].
  simpl. rewrite (trim_id t Hc), Ht, IH. reflexivity.
Qed.

(** C1. In a connected session, after any sequence of events, the
    accumulated final transcript is the final fragments received so far
    (the trimmed, non-empty transcripts of the results marked final)
    joined in arrival order by one space; it has no white space at
    either end, so a wait registered at that point is resolved at
    finalization with exactly that text.  Final results carrying
    "hello" then "world" give "hello world".  No event shortens or
    reorders the accumulated text: each one leaves it or extends it at
    the end.  In particular fragments that arrive without white space
    at their ends are joined as they are. *)
Theorem C1_final_transcript_is_space_join :
  (forall (k m : jsstring) (o : STTOptions) (es : list event) (t : option Z),
      let w := run (open_session k m o) es in
      finalTranscript (session w) = join [SPACE] (final_fragments es)
      /\ clean (finalTranscript (session w))
      /\ (let (w1, i) := waitForTranscript t w in
          promise <$> waits (finishTranscript w1) !! i =
          Some (Resolved (join [SPACE] (final_fragments es)))))
  /\ (forall ts : list jsstring,
         final_fragments (final_events ts) = List.filter truthy (List.map trim ts))
  /\ (forall (k m : jsstring) (o : STTOptions) (ts : list jsstring),
         Forall (fun t => clean t /\ truthy t = true) ts ->
         finalTranscript (session (run (open_session k m o) (final_events ts)))
         = join [SPACE] ts)
  /\ (forall (k m : jsstring) (o : STTOptions),
         finalTranscript
           (session (run (open_session k m o)
                       (final_events [js "hello"; js "world"])))
         = js "hello world")
  /\ (forall (w : World) (e : event),
         exists suffix,
           finalTranscript (session (step w e))
           = finalTranscript (session w) ++ suffix).
Proof.
  split; [|split; [|split; [|split]]].
  - intros k m o es t w.
    assert (Hj : finalTranscript (session w) = join [SPACE] (final_fragments es))
      by apply finalTranscript_open_run.
    assert (Hc : clean (finalTranscript (session w))).
    { rewrite Hj. apply join_clean, final_fragments_spec. }
    split; [exact Hj|]. split; [exact Hc|].
    pose proof (finish_after_wait t w) as Hf.
    destruct (waitForTranscript t w) as [w1 i].
    rewrite Hf, trim_id by exact Hc. rewrite Hj. reflexivity.
  - exact final_fragments_final_events.
  - intros k m o ts Hts.
    rewrite finalTranscript_open_run, final_fragments_final_events.
    f_equal. apply filter_trim_clean, Hts.
  - intros k m o. rewrite finalTranscript_open_run. reflexivity.
  - exact finalTranscript_append_only.
Qed.

Lemma C1_witness :
  finalTranscript
    (session (run (open_session (js "key") (js "nova-3")
                     {| language_property := Absent;
                        vadEnabled_property := Absent;
                        wordTimestamps_property := Absent |})
                (final_events [js "good"; js "morning"; js "all"])))
  = js "good morning all".
Proof.
  destruct C1_final_transcript_is_space_join as (_ & _ & H & _).
  rewrite H; [reflexivity|].
  repeat constructor.
Defined.

(** ** What a run preserves *)

Lemma run_app (w : World) (es1 es2 : list event) :
  run w (es1 ++ es2) = run (run w es1) es2.
Proof. unfold run. apply fold_left_app. Qed.

Lemma options_step (w : World) (e : event) :
  options (session (step w e)) = options (session w).
Proof.
  destruct e; split_step.
Qed.

Lemma options_run (es : list event) (w : World) :
  options (session (run w es)) = options (session w).
Proof.
  revert w. induction es as [|e r IH]; intros w; [reflexivity|].
  simpl. rewrite IH. apply options_step.
Qed.

(** Once ended, a session stays ended. *)
Lemma ended_step (w : World) (e : event) :
  ended (session w) = true -> ended (session (step w e)) = true.
Proof.
  destruct e; intros H; split_step.
Qed.

Lemma ended_run (es : list event) (w : World) :
  ended (session w) = true -> ended (session (run w es)) = true.
Proof.
  revert w. induction es as [|e r IH]; intros w H; [exact H|].
  simpl. apply IH, ended_step, H.
Qed.

Lemma ended_endAudio (w : World) : ended (session (endAudio w)) = true.
Proof. split_step. Qed.

Lemma ended_after_endAudio (es : list event) (w : World) :
  In CallEndAudio es -> ended (session (run w es)) = true.
Proof.
  intros H. apply in_split in H as (es1 & es2 & ->).
  rewrite run_app. simpl. apply ended_run, ended_endAudio.
Qed.

(** ** Finalization at an utterance boundary *)

Lemma utterance_end_step (w : World) (msg : DeepgramStreamMessage) (now : Z) :
  type msg = UtteranceEnd ->
  handlers_installed w = true ->
  step w (EvMessage (Parsed msg) now) =
  if flag (vadEnabled (options (session w))) && ended (session w)
  then finishTranscript w else w.
Proof.
  unfold handlers_installed. intros Ht Hi. simpl.
  destruct (socket w) as [k|]; [|discriminate]. rewrite Hi.
  unfold on_message. rewrite Ht. reflexivity.
Qed.

Lemma finishTranscript_wait (w : World) (i : nat) (x : Wait) :
  resolveTranscript (session w) = Some i ->
  waits w !! i = Some x ->
  waits (finishTranscript w) !! i =
  Some {| promise := settle (Resolved (trim (finalTranscript (session w))))
                       (promise x);
          timer := clearTimeout (timer x) |}.
Proof.
  intros Hr Hx. unfold finishTranscript, resolve_wait. rewrite Hr. simpl.
  rewrite list_lookup_alter_eq, Hx. reflexivity.
Qed.

Lemma finishTranscript_keeps (w : World) :
  session (finishTranscript w) = session w
  /\ socket (finishTranscript w) = socket w.
Proof. unfold finishTranscript. destruct (resolveTranscript _); auto. Qed.

(** C2. In a connected session, when an [UtteranceEnd] frame arrives:
    if voice activity detection is enabled and [endAudio] was called
    earlier, the registered wait, if pending, is resolved with the
    accumulated final text and its timer is cleared, while the
    transport and the session fields stay as they are (the close of
    the transport is not awaited); if detection is disabled or the
    session has not ended, the frame changes nothing. *)
Theorem C2_utterance_end_finalizes (k m : jsstring) (o : STTOptions)
  (es : list event) (msg : DeepgramStreamMessage) (now : Z) :
  type msg = UtteranceEnd ->
  let w := run (open_session k m o) es in
  let w' := step w (EvMessage (Parsed msg) now) in
  (flag (vadEnabled o) = true -> In CallEndAudio es ->
   socket w' = socket w /\ session w' = session w /\
   forall (i : nat) (x : Wait),
     resolveTranscript (session w) = Some i ->
     waits w !! i = Some x ->
     promise x = Pending ->
     waits w' !! i =
     Some {| promise := Resolved (finalTranscript (session w));
             timer := clearTimeout (timer x) |})
  /\ (flag (vadEnabled o) = false \/ ended (session w) = false -> w' = w).
Proof.
  intros Ht w w'.
  assert (Hi : handlers_installed w = true)
    by apply installed_run, installed_open_session.
  assert (Ho : options (session w) = o) by apply options_run.
  assert (Hw : w' = if flag (vadEnabled o) && ended (session w)
                    then finishTranscript w else w).
  { unfold w'. rewrite utterance_end_step, Ho by assumption. reflexivity. }
  split.
  - intros Hv He.
    assert (Hen : ended (session w) = true)
      by (apply ended_after_endAudio, He).
    rewrite Hv, Hen in Hw. simpl in Hw.
    rewrite Hw.
    destruct (finishTranscript_keeps w) as [Hs Hk].
    split; [exact Hk|]. split; [exact Hs|].
    intros i x Hr Hx Hp.
    rewrite (finishTranscript_wait w i x Hr Hx), Hp. simpl.
    rewrite trim_id; [reflexivity|].
    unfold w. rewrite finalTranscript_open_run.
    apply join_clean, final_fragments_spec.
  - intros [Hv|He]; rewrite Hw.
    + rewrite Hv. reflexivity.
    + rewrite He, andb_false_r. reflexivity.
Qed.

Lemma C2_witness :
  let w := run (open_session (js "key") (js "nova-3") vad_options)
             [CallWaitForTranscript None;
              EvMessage (final_result (js "hello")) 0;
              CallEndAudio] in
  waits (step w (EvMessage (Parsed utterance_end_message) 1)) !! 0%nat =
  Some {| promise := Resolved (js "hello"); timer := Cleared |}.
Proof.
  intros w.
  destruct (C2_utterance_end_finalizes (js "key") (js "nova-3") vad_options
              [CallWaitForTranscript None;
               EvMessage (final_result (js "hello")) 0;
               CallEndAudio] utterance_end_message 1 eq_refl) as [H _].
  destruct H as (_ & _ & H).
  - reflexivity.
  - simpl. tauto.
  - apply (H 0%nat {| promise := Pending; timer := Armed DEFAULT_WAIT_MS |});
      reflexivity.
Defined.

(** ** Waits, timers and finalization *)

Lemma settle_not_pending {A} (v p : promise_state A) :
  v <> Pending -> settle v p = Pending -> False.
Proof. destruct p; simpl; congruence. Qed.

Lemma tracked_resolve_wait (i j : nat) (ms : Z) (t : jsstring) (l : list Wait) :
  tracked i ms l -> tracked i ms (resolve_wait j t l).
Proof.
  intros (x & Hx & Hp). unfold resolve_wait, tracked.
  destruct (decide (j = i)) as [->|Hne].
  - rewrite list_lookup_alter_eq, Hx. simpl. eexists. split; [reflexivity|].
    simpl. intros H. exfalso. revert H. apply settle_not_pending. discriminate.
  - rewrite list_lookup_alter_ne by exact Hne. eauto.
Qed.

Lemma tracked_reject_wait (i j : nat) (ms : Z) (e : error) (l : list Wait) :
  tracked i ms l -> tracked i ms (reject_wait j e l).
Proof.
  intros (x & Hx & Hp). unfold reject_wait, tracked.
  destruct (decide (j = i)) as [->|Hne].
  - rewrite list_lookup_alter_eq, Hx. simpl. eexists. split; [reflexivity|].
    simpl. intros H. exfalso. revert H. apply settle_not_pending. discriminate.
  - rewrite list_lookup_alter_ne by exact Hne. eauto.
Qed.

Lemma tracked_fire (i j : nat) (ms : Z) (p : promise_state jsstring)
  (l : list Wait) :
  tracked i ms l ->
  tracked i ms (<[j := {| promise := settle (Rejected TIMEOUT_ERROR) p;
                          timer := Fired |}]> l).
Proof.
  intros (x & Hx & Hp). unfold tracked.
  destruct (decide (j = i)) as [->|Hne].
  - rewrite list_lookup_insert_eq by (eapply lookup_lt_Some, Hx).
    eexists. split; [reflexivity|]. simpl.
    intros H. exfalso. revert H. apply settle_not_pending. discriminate.
  - rewrite list_lookup_insert_ne by exact Hne. eauto.
Qed.

Lemma tracked_app (i : nat) (ms : Z) (l l' : list Wait) :
  tracked i ms l -> tracked i ms (l ++ l').
Proof.
  intros (x & Hx & Hp). exists x. split; [|exact Hp].
  apply lookup_app_l_Some, Hx.
Qed.

Lemma tracked_step (i : nat) (ms : Z) (w : World) (e : event) :
  tracked i ms (waits w) -> tracked i ms (waits (step w e)).
Proof.
  intros H. destruct e; split_step;
    auto using tracked_resolve_wait, tracked_reject_wait, tracked_app.
  all: try (apply (tracked_fire _ _ _ _ _ H)).
Qed.

Lemma tracked_run (i : nat) (ms : Z) (es : list event) (w : World) :
  tracked i ms (waits w) -> tracked i ms (waits (run w es)).
Proof.
  revert w. induction es as [|e r IH]; intros w H; [exact H|].
  simpl. apply IH, tracked_step, H.
Qed.

Lemma tracked_after_wait (t : option Z) (w : World) :
  tracked (snd (waitForTranscript t w)) (wait_ms t)
    (waits (fst (waitForTranscript t w))).
Proof.
  unfold tracked, waitForTranscript. simpl.
  rewrite lookup_app_r, Nat.sub_diag by lia. simpl.
  eexists. split; [reflexivity|]. reflexivity.
Qed.

(** What [close] leaves behind. *)
Lemma close_spec (w : World) :
  ws (session (close w)) = false
  /\ ended (session (close w)) = true
  /\ waits (close w) = waits w
  /\ socket (close w) =
     (if ws (session w) then option_map ws_close (socket w) else socket w).
Proof.
  unfold close. destruct (ws (session w)) eqn:E; simpl; rewrite ?E; auto.
Qed.

Lemma ws_close_not_open (k : WebSocket) : is_OPEN (readyState (ws_close k)) = false.
Proof. unfold ws_close. destruct (readyState k) eqn:E; simpl; rewrite ?E; reflexivity. Qed.

(** The timer of a pending wait fires. *)
Lemma timer_fires (w : World) (i : nat) (ms : Z) :
  waits w !! i = Some {| promise := Pending; timer := Armed ms |} ->
  let w' := step w (EvTimer i) in
  waits w' !! i = Some {| promise := Rejected TIMEOUT_ERROR; timer := Fired |}
  /\ ws (session w') = false
  /\ ended (session w') = true
  /\ socket w' =
     (if ws (session w) then option_map ws_close (socket w) else socket w).
Proof.
  intros Hx. simpl. unfold on_timer. rewrite Hx.
  match goal with |- context [close ?v] => destruct (close_spec v) as (H1 & H2 & H3 & H4) end.
  rewrite H1, H2, H3, H4. simpl.
  rewrite list_lookup_insert_eq by (eapply lookup_lt_Some, Hx).
  auto.
Qed.

(** A cleared timer does not fire. *)
Lemma cleared_timer_is_silent (w : World) (i : nat) (p : promise_state jsstring) :
  waits w !! i = Some {| promise := p; timer := Cleared |} ->
  step w (EvTimer i) = w.
Proof. intros Hx. simpl. unfold on_timer. rewrite Hx. reflexivity. Qed.

(** C3 (as amended). A call of [waitForTranscript] arms a timer with its
    argument, 30000 ms without one, and registers its promise, pending.
    After any further events: if that promise is still pending when the
    timer fires, it is rejected with the timeout error, and the session
    is force-closed (the reference is cleared, the session is marked
    ended, and [close] is called on the transport if it was still held,
    which leaves it not open); if the session finalizes while the call
    is still the registered wait and its promise is pending, the
    promise is resolved with the trimmed accumulated text and the timer
    is cleared, so that it no longer fires. *)
Theorem C3_wait_timeout_or_finalization (w : World) (t : option Z)
  (es : list event) :
  let w1 := fst (waitForTranscript t w) in
  let i := snd (waitForTranscript t w) in
  let w2 := run w1 es in
  waits w1 !! i = Some {| promise := Pending; timer := Armed (wait_ms t) |}
  /\ wait_ms None = 30000%Z
  /\ (forall x : Wait,
         waits w2 !! i = Some x -> promise x = Pending ->
         let w3 := step w2 (EvTimer i) in
         waits w3 !! i =
         Some {| promise := Rejected TIMEOUT_ERROR; timer := Fired |}
         /\ ws (session w3) = false
         /\ ended (session w3) = true
         /\ (ws (session w2) = true ->
             forall k, socket w2 = Some k ->
                       socket w3 = Some (ws_close k)
                       /\ is_OPEN (readyState (ws_close k)) = false))
  /\ (forall x : Wait,
         waits w2 !! i = Some x -> promise x = Pending ->
         resolveTranscript (session w2) = Some i ->
         let w3 := finishTranscript w2 in
         waits w3 !! i =
         Some {| promise := Resolved (trim (finalTranscript (session w2)));
                 timer := Cleared |}
         /\ step w3 (EvTimer i) = w3).
Proof.
  intros w1 i w2.
  assert (Ht : tracked i (wait_ms t) (waits w2))
    by apply tracked_run, tracked_after_wait.
  split; [|split; [reflexivity|split]].
  - unfold w1, i, waitForTranscript. simpl.
    rewrite lookup_app_r, Nat.sub_diag by lia. reflexivity.
  - intros x Hx Hp.
    destruct Ht as (x' & Hx' & Harm). rewrite Hx in Hx'. simplify_eq.
    specialize (Harm Hp). destruct x' as [p tm].
    cbn [promise timer] in Hp, Harm. subst p tm.
    destruct (timer_fires w2 i (wait_ms t) Hx) as (H1 & H2 & H3 & H4).
    cbv zeta. split; [exact H1|]. split; [exact H2|]. split; [exact H3|].
    intros Hws k Hk. split; [|apply ws_close_not_open].
    rewrite H4, Hws, Hk. reflexivity.
  - intros x Hx Hp Hr.
    destruct Ht as (x' & Hx' & Harm). rewrite Hx in Hx'. simplify_eq.
    specialize (Harm Hp). destruct x' as [p tm].
    cbn [promise timer] in Hp, Harm. subst p tm.
    pose proof (finishTranscript_wait w2 i _ Hr Hx) as Hf.
    cbn [promise timer settle clearTimeout] in Hf.
    split; [exact Hf|].
    apply (cleared_timer_is_silent _ i _ Hf).
Qed.

Lemma C3_witness :
  let w := open_session (js "key") (js "nova-3") vad_options in
  (waits (run w [CallWaitForTranscript (Some 100%Z); CallEndAudio; EvTimer 0])
     !! 0%nat
   = Some {| promise := Rejected TIMEOUT_ERROR; timer := Fired |})
  /\ (waits (finishTranscript
               (run w [CallWaitForTranscript (Some 100%Z);
                       EvMessage (final_result (js " hello ")) 0;
                       CallEndAudio])) !! 0%nat
      = Some {| promise := Resolved (js "hello"); timer := Cleared |}).
Proof.
  intros w. split.
  - destruct (C3_wait_timeout_or_finalization w (Some 100%Z) [CallEndAudio])
      as (_ & _ & H & _).
    destruct (H {| promise := Pending; timer := Armed 100 |} eq_refl eq_refl)
      as (H1 & _).
    exact H1.
  - destruct (C3_wait_timeout_or_finalization w (Some 100%Z)
                [EvMessage (final_result (js " hello ")) 0; CallEndAudio])
      as (_ & _ & _ & H).
    destruct (H {| promise := Pending; timer := Armed 100 |}
                eq_refl eq_refl eq_refl) as (H1 & _).
    exact H1.
Defined.

(** C3 as stated fails in two ways.  A transport error before the timer:
    no finalizing event occurs, yet the promise is rejected with the
    transport error, not with the timeout error.  A second call of
    [waitForTranscript] before finalization: the session finalizes
    before the first timer fires, yet the first promise is not resolved
    and its timer is not cleared. *)
Lemma C3_counterexample :
  let w := open_session (js "key") (js "nova-3") vad_options in
  (let w' := run w [CallWaitForTranscript (Some 100%Z);
                    EvError (js "reset"); EvTimer 0] in
   waits w' !! 0%nat =
   Some {| promise := Rejected (Error (js "Deepgram WebSocket error: reset"));
           timer := Fired |}
   /\ promise <$> waits w' !! 0%nat <> Some (Rejected TIMEOUT_ERROR))
  /\ (let w' := run w [CallWaitForTranscript (Some 100%Z);
                       CallWaitForTranscript None;
                       EvMessage (final_result (js "hello")) 0;
                       CallEndAudio;
                       EvMessage (Parsed utterance_end_message) 1] in
      waits w' =
      [{| promise := Pending; timer := Armed 100 |};
       {| promise := Resolved (js "hello"); timer := Cleared |}]).
Proof.
  intros w. split; [split|].
  - reflexivity.
  - vm_compute. discriminate.
  - reflexivity.
Qed.

(** ** Overlapping waits *)

Lemma finishTranscript_other (w : World) (i j : nat) :
  resolveTranscript (session w) = Some i -> j <> i ->
  waits (finishTranscript w) !! j = waits w !! j.
Proof.
  intros Hr Hne. unfold finishTranscript, resolve_wait. rewrite Hr. simpl.
  apply list_lookup_alter_ne. congruence.
Qed.

Lemma on_error_other (msg : jsstring) (w : World) (i j : nat) :
  rejectTranscript (session w) = Some i -> j <> i ->
  waits (step w (EvError msg)) !! j = waits w !! j.
Proof.
  intros Hr Hne. split_step.
  all: unfold reject_wait; apply list_lookup_alter_ne; congruence.
Qed.

(** C5 (as amended). A call of [waitForTranscript] is never rejected, also
    while an earlier wait is outstanding: it adds a pending promise with
    an armed timer, leaves the earlier waits as they are and replaces
    the stored resolver and rejecter by its own.  From then on
    finalization and transport errors settle only this latest call; an
    earlier promise that is pending stays so until its own timer fires,
    which rejects it with the timeout error. *)
Theorem C5_second_wait_replaces_first (w : World) (t : option Z) :
  let w1 := fst (waitForTranscript t w) in
  let i := snd (waitForTranscript t w) in
  waits w1 = waits w ++ [{| promise := Pending; timer := Armed (wait_ms t) |}]
  /\ i = length (waits w)
  /\ resolveTranscript (session w1) = Some i
  /\ rejectTranscript (session w1) = Some i
  /\ (forall j : nat, j <> i ->
        waits (finishTranscript w1) !! j = waits w !! j
        /\ forall msg, waits (step w1 (EvError msg)) !! j = waits w !! j)
  /\ (forall (j : nat) (ms : Z),
        waits w !! j = Some {| promise := Pending; timer := Armed ms |} ->
        waits (step w1 (EvTimer j)) !! j =
        Some {| promise := Rejected TIMEOUT_ERROR; timer := Fired |}).
Proof.
  intros w1 i.
  assert (Hw : waits w1 =
               waits w ++ [{| promise := Pending; timer := Armed (wait_ms t) |}])
    by reflexivity.
  assert (Hold : forall j, j <> i -> waits w1 !! j = waits w !! j).
  { intros j Hne. rewrite Hw.
    destruct (decide (j < length (waits w))%nat) as [Hlt|Hge].
    - apply lookup_app_l, Hlt.
    - rewrite !lookup_ge_None_2; [reflexivity|lia|].
      rewrite length_app. simpl. unfold i in Hne. simpl in Hne. lia. }
  split; [exact Hw|]. split; [reflexivity|].
  split; [reflexivity|]. split; [reflexivity|]. split.
  - intros j Hne. split.
    + rewrite (finishTranscript_other w1 i j) by auto. apply Hold, Hne.
    + intros msg. rewrite (on_error_other msg w1 i j) by auto.
      apply Hold, Hne.
  - intros j ms Hj.
    apply (timer_fires w1 j ms).
    rewrite Hw. apply lookup_app_l_Some, Hj.
Qed.

Lemma C5_witness :
  let w := fst (waitForTranscript (Some 100%Z)
                  (open_session (js "key") (js "nova-3") vad_options)) in
  let w1 := fst (waitForTranscript None w) in
  waits (finishTranscript w1) !! 0%nat =
  Some {| promise := Pending; timer := Armed 100 |}
  /\ waits (step w1 (EvTimer 0)) !! 0%nat =
     Some {| promise := Rejected TIMEOUT_ERROR; timer := Fired |}.
Proof.
  intros w w1.
  destruct (C5_second_wait_replaces_first w None) as (_ & _ & _ & _ & H1 & H2).
  split.
  - destruct (H1 0%nat) as [H _]; [discriminate|]. exact H.
  - exact (H2 0%nat 100%Z eq_refl).
Defined.

(** C5 as stated fails: with a first wait outstanding, the second call is
    not rejected (its promise is pending and is the one that
    finalization resolves), and finalization passes the first wait by,
    leaving it pending. *)
Lemma C5_counterexample :
  let w := open_session (js "key") (js "nova-3") vad_options in
  waits (run w [CallWaitForTranscript (Some 100%Z);
                CallWaitForTranscript (Some 200%Z)]) =
  [{| promise := Pending; timer := Armed 100 |};
   {| promise := Pending; timer := Armed 200 |}]
  /\ waits (run w [CallWaitForTranscript (Some 100%Z);
                   CallWaitForTranscript (Some 200%Z);
                   CallEndAudio;
                   EvClose]) =
     [{| promise := Pending; timer := Armed 100 |};
      {| promise := Resolved []; timer := Cleared |}].
Proof.
  intros w. split; reflexivity.
Qed.

(** ** Sending audio *)

Lemma transport_open_spec (w : World) :
  transport_open w = true <->
  ws (session w) = true
  /\ exists k, socket w = Some k /\ readyState k = OPEN.
Proof.
  unfold transport_open. split.
  - intros H. apply andb_true_iff in H as [H1 H2]. split; [exact H1|].
    destruct (socket w) as [k|]; [|discriminate]. exists k. split; [reflexivity|].
    destruct (readyState k); try discriminate. reflexivity.
  - intros (H1 & k & Hk & Hr). rewrite H1, Hk, Hr. reflexivity.
Qed.

(** C4. [sendAudio] throws whenever the transport is not open (the
    reference is cleared, or the socket is in another state than
    [OPEN]) or the session has ended, and then nothing is sent and
    nothing changes; after a call of [endAudio] it throws whatever
    happened since.  Otherwise it succeeds and adds exactly one binary
    frame carrying the audio bytes to what the transport has sent. *)
Theorem C4_sendAudio_throws_or_forwards (w : World) (audio : list Byte.byte) :
  (transport_open w = true <->
   ws (session w) = true /\ exists k, socket w = Some k /\ readyState k = OPEN)
  /\ (transport_open w = false ->
      sendAudio audio w = Throw (Error (js "Deepgram session not connected"))
      /\ step w (CallSendAudio audio) = w)
  /\ (transport_open w = true -> ended (session w) = true ->
      sendAudio audio w = Throw (Error (js "Session ended, cannot send more audio"))
      /\ step w (CallSendAudio audio) = w)
  /\ (forall es : list event,
        In CallEndAudio es ->
        exists e, sendAudio audio (run w es) = Throw e)
  /\ (transport_open w = true -> ended (session w) = false ->
      exists k, socket w = Some k
                /\ sendAudio audio w =
                   Ok (with_socket (Some (ws_send (BinaryFrame audio) k)) w)
                /\ sent (ws_send (BinaryFrame audio) k) =
                   sent k ++ [BinaryFrame audio]
                /\ readyState (ws_send (BinaryFrame audio) k) = readyState k).
Proof.
  split; [apply transport_open_spec|]. split; [|split; [|split]].
  - intros H. simpl. unfold sendAudio. rewrite H. auto.
  - intros H He. simpl. unfold sendAudio. rewrite H, He. auto.
  - intros es Hin. pose proof (ended_after_endAudio es w Hin) as He.
    unfold sendAudio. rewrite He.
    destruct (negb (transport_open (run w es))); eauto.
  - intros H He. pose proof H as H'.
    apply transport_open_spec in H' as (_ & k & Hk & _).
    exists k. unfold sendAudio. rewrite H, He, Hk. auto.
Qed.

Lemma C4_witness :
  let w := open_session (js "key") (js "nova-3") vad_options in
  sendAudio [Byte.x01; Byte.x02] (endAudio w) =
  Throw (Error (js "Session ended, cannot send more audio"))
  /\ (exists k, socket w = Some k
                /\ sendAudio [Byte.x01; Byte.x02] w =
                   Ok (with_socket
                         (Some (ws_send (BinaryFrame [Byte.x01; Byte.x02]) k)) w))
  /\ sendAudio [Byte.x01; Byte.x02] (close w) =
     Throw (Error (js "Deepgram session not connected")).
Proof.
  intros w. split; [|split].
  - destruct (C4_sendAudio_throws_or_forwards (endAudio w) [Byte.x01; Byte.x02])
      as (_ & _ & H & _).
    apply H; reflexivity.
  - destruct (C4_sendAudio_throws_or_forwards w [Byte.x01; Byte.x02])
      as (_ & _ & _ & _ & H).
    destruct (H eq_refl eq_refl) as (k & Hk & Hs & _).
    exists k. split; assumption.
  - destruct (C4_sendAudio_throws_or_forwards (close w) [Byte.x01; Byte.x02])
      as (_ & H & _).
    apply H. reflexivity.
Defined.

(** ** Batch transcription *)

Lemma transcribe_result (p : DeepgramProvider) (audio : list Byte.byte)
  (o : option STTOptions) (net : Request -> fetch_outcome)
  (log : list io_action) :
  fst (transcribe p audio o net log) =
  transcribe_response (net (transcribe_request p audio o)).
Proof.
  unfold transcribe.
  destruct (net (transcribe_request p audio o)); reflexivity.
Qed.

(** A successful call never gives the empty string. *)
Lemma transcribe_response_not_empty (out : fetch_outcome) :
  transcribe_response out <> Ok [].
Proof.
  unfold transcribe_response. intros H.
  repeat (case_match; simplify_eq; try done).
Qed.

(** C6. When the response has a success status and its payload has no
    top transcript alternative, or one that is empty after trimming,
    [transcribe] rejects with the missing-transcript error; and
    whatever the response, [transcribe] never resolves with the empty
    string. *)
Theorem C6_missing_transcript_rejects (p : DeepgramProvider)
  (audio : list Byte.byte) (o : option STTOptions)
  (net : Request -> fetch_outcome) (log : list io_action) :
  (forall (r : Response) (d : DeepgramTranscriptResponse),
      net (transcribe_request p audio o) = Responds r ->
      ok r = true ->
      body_json r = Ok d ->
      match top_transcript d with
      | Some t => trim t = []
      | None => True
      end ->
      fst (transcribe p audio o net log) = Throw MISSING_TRANSCRIPT)
  /\ fst (transcribe p audio o net log) <> Ok [].
Proof.
  rewrite transcribe_result. split.
  - intros r d Hn Hok Hj Ht. rewrite Hn. unfold transcribe_response.
    rewrite Hok, Hj. simpl. unfold payload_transcript.
    destruct (top_transcript d) as [t|]; simpl; [|reflexivity].
    rewrite Ht. reflexivity.
  - apply transcribe_response_not_empty.
Qed.


Lemma default_provider_made : new_provider key_only None = Ok default_provider.
Proof. reflexivity. Qed.

Lemma C6_witness :
  fst (transcribe default_provider [] None (fun _ => Responds blank_success) [])
  = Throw MISSING_TRANSCRIPT.
Proof.
  destruct (C6_missing_transcript_rejects default_provider [] None
              (fun _ => Responds blank_success) []) as [H _].
  apply (H blank_success (payload_with (Some (js "   "))));
    reflexivity.
Defined.


(** ** Configuration *)

Lemma includes_In (m : jsstring) (l : list jsstring) :
  includes m l = true <-> In m l.
Proof.
  unfold includes. rewrite existsb_exists. split.
  - intros (x & Hin & Hx). apply bool_decide_eq_true in Hx. subst. exact Hin.
  - intros H. exists m. split; [exact H|]. apply bool_decide_eq_true. reflexivity.
Qed.

Lemma new_provider_has_key (c : DeepgramConfig) (env : option jsstring)
  (p : DeepgramProvider) :
  new_provider c env = Ok p -> truthy (rc_apiKey (config p)) = true.
Proof.
  unfold new_provider. intros H.
  destruct (truthy (str_or (str_or (opt_str (cfg_apiKey c)) (opt_str env)) []))
    eqn:E; simpl in H; [|discriminate].
  injection H as <-. exact E.
Qed.

Lemma range_test (t : number) :
  num_lt t (of_Z 1000) || num_gt t (of_Z 300000) = false <->
  t = NaN \/ within_range t.
Proof.
  destruct t as [q| | |]; simpl.
  - unfold num_gt, num_lt, of_Z.
    rewrite orb_false_iff, !negb_false_iff, !Qle_bool_iff.
    split; [intros H; right; exact H|].
    intros [H|H]; [discriminate|exact H].
  - split; [auto|reflexivity].
  - split; [discriminate|]. intros [H|H]; [discriminate|contradiction].
  - split; [discriminate|]. intros [H|H]; [discriminate|contradiction].
Qed.

Lemma validate_Ok_iff (show : number -> jsstring) (p : DeepgramProvider) :
  validate show p = Ok tt <->
  truthy (rc_apiKey (config p)) = true
  /\ In (rc_model (config p)) validModels
  /\ (rc_timeoutMs (config p) = NaN \/ within_range (rc_timeoutMs (config p))).
Proof.
  unfold validate.
  destruct (truthy (rc_apiKey (config p))); cbn [negb];
    [|split; [discriminate|intros [H _]; discriminate]].
  destruct (includes (rc_model (config p)) validModels) eqn:Em; cbn [negb].
  - apply includes_In in Em.
    destruct (num_lt (rc_timeoutMs (config p)) (of_Z 1000)
              || num_gt (rc_timeoutMs (config p)) (of_Z 300000)) eqn:Et.
    + split; [discriminate|]. intros (_ & _ & Hto).
      apply range_test in Hto. congruence.
    + apply range_test in Et. split; [|reflexivity]. intros _. auto.
  - split; [discriminate|]. intros (_ & Hm & _).
    apply includes_In in Hm. congruence.
Qed.

(** C8, the code at the failing input and around it.  With a credential
    and a supported model, [validateConfig] returns normally for the
    timeout [NaN], which is outside the range of 1000 to 300000 ms.
    [NaN] is the only such value: for a provider with a credential,
    [validateConfig] returns normally exactly when the model is one of
    nova-3, nova-2, nova, enhanced, base and the timeout is [NaN] or a
    finite number between 1000 and 300000, both included.  It performs
    no action on the outside. *)
Theorem C8_validateConfig_accepts_NaN (show : number -> jsstring) :
  validate show (with_model_timeout (js "nova-3") NaN) = Ok tt
  /\ ~ within_range NaN
  /\ (forall p : DeepgramProvider,
         truthy (rc_apiKey (config p)) = true ->
         (validate show p = Ok tt <->
          In (rc_model (config p))
            [js "nova-3"; js "nova-2"; js "nova"; js "enhanced"; js "base"]
          /\ (rc_timeoutMs (config p) = NaN
              \/ within_range (rc_timeoutMs (config p)))))
  /\ (forall (p : DeepgramProvider) (log : list io_action),
         validateConfig show p log = (validate show p, log)).
Proof.
  split; [reflexivity|]. split; [intros H; exact H|]. split; [|reflexivity].
  intros p Hk. rewrite validate_Ok_iff, Hk. unfold validModels. tauto.
Qed.

Lemma C8_witness :
  validate (fun _ => js "n") (with_model_timeout (js "enhanced") (of_Z 300000))
  = Ok tt
  /\ validate (fun _ => js "n") (with_model_timeout (js "base") (of_Z 1000))
     = Ok tt
  /\ validate (fun _ => js "n") (with_model_timeout (js "base") (of_Z 999))
     <> Ok tt
  /\ validate (fun _ => js "n") (with_model_timeout (js "base") PosInfinity)
     <> Ok tt
  /\ validate (fun _ => js "n") (with_model_timeout (js "nova-4") (of_Z 30000))
     <> Ok tt.
Proof.
  destruct (C8_validateConfig_accepts_NaN (fun _ => js "n")) as (_ & _ & H & _).
  split; [|split; [|split; [|split]]].
  - apply (H (with_model_timeout (js "enhanced") (of_Z 300000)) eq_refl).
    split; [simpl; tauto|].
    right. split; apply Qle_bool_iff; reflexivity.
  - apply (H (with_model_timeout (js "base") (of_Z 1000)) eq_refl).
    split; [simpl; tauto|].
    right. split; apply Qle_bool_iff; reflexivity.
  - intros Hv.
    apply (H (with_model_timeout (js "base") (of_Z 999)) eq_refl) in Hv.
    destruct Hv as [_ [Hv|[Hv _]]]; [discriminate|].
    apply Qle_bool_iff in Hv. discriminate.
  - intros Hv.
    apply (H (with_model_timeout (js "base") PosInfinity) eq_refl) in Hv.
    destruct Hv as [_ [Hv|Hv]]; [discriminate|contradiction].
  - intros Hv.
    apply (H (with_model_timeout (js "nova-4") (of_Z 30000)) eq_refl) in Hv.
    destruct Hv as [Hm _]. simpl in Hm.
    repeat (destruct Hm as [Hm|Hm]; [discriminate Hm|]). exact Hm.
Defined.

(** ** Provider defaults and per-call options *)

(** C9, the code at the failing input.  The provider is configured with
    word timestamps on and language "en".  A batch call whose options
    switch word timestamps off still asks for utterances, and one whose
    options give the empty language still sends language "en"; a
    session created with the same options follows the caller: no
    utterance end, no language. *)
Theorem C9_transcribe_keeps_provider_default :
  new_provider timestamps_config None = Ok timestamps_provider
  /\ params_get (js "utterances")
       (searchParams (transcribe_url timestamps_provider (Some without_timestamps)))
     = Some (js "true")
  /\ params_get (js "utterance_end_ms")
       (searchParams (session_url timestamps_provider (Some without_timestamps)))
     = None
  /\ params_get (js "language")
       (searchParams (transcribe_url timestamps_provider (Some without_language)))
     = Some (js "en")
  /\ params_get (js "language")
       (searchParams (session_url timestamps_provider (Some without_language)))
     = None.
Proof. repeat split. Qed.

(** ** The streaming endpoint *)

Lemma href_base_set_param (k v : jsstring) (u : URL) :
  href_base (set_param k v u) = href_base u.
Proof. reflexivity. Qed.

Lemma href_base_connect_url (m : jsstring) (o : STTOptions) :
  href_base (connect_url m o) = STREAM_URL.
Proof.
  unfold connect_url.
  repeat (case_match; rewrite ?href_base_set_param); reflexivity.
Qed.

Lemma href_base_transcribe_url (p : DeepgramProvider) (o : option STTOptions) :
  href_base (transcribe_url p o) = baseUrl p ++ js "/listen".
Proof.
  unfold transcribe_url.
  repeat (case_match; rewrite ?href_base_set_param); reflexivity.
Qed.

Lemma createSession_result (p : DeepgramProvider) (o : option STTOptions)
  (log : list io_action) :
  createSession p o log =
  (connect (new_session (rc_apiKey (config p)) (rc_model (config p))
              (session_options p o)),
   log ++ [OpenSocket (session_url p o) (js "Token " ++ rc_apiKey (config p))]).
Proof. reflexivity. Qed.

(** C10. Whatever base URL the configuration gives, [createSession]
    opens the transport at the address wss://api.deepgram.com/v1/listen:
    two providers made from configurations that differ in the base URL
    alone create the same session and perform the same action.  The
    normalized base URL is the address of the batch call and of the
    health check. *)
Theorem C10_stream_url_is_fixed (c : DeepgramConfig) (env b : option jsstring)
  (p p' : DeepgramProvider) (o : option STTOptions) (log : list io_action) :
  new_provider c env = Ok p ->
  new_provider (set_baseUrl b c) env = Ok p' ->
  (exists k, socket (fst (createSession p' o log)) = Some k
             /\ href_base (url k) = STREAM_URL
             /\ snd (createSession p' o log) =
                log ++ [OpenSocket (url k) (authorization k)])
  /\ createSession p' o log = createSession p o log
  /\ baseUrl p' = normalizeBaseUrl (Some (default DEFAULT_baseUrl b)) DEFAULT_baseUrl
  /\ href_base (transcribe_url p' o) = baseUrl p' ++ js "/listen"
  /\ href_base (req_url (healthCheck_request p')) = baseUrl p' ++ js "/listen".
Proof.
  intros Hp Hp'. split; [|split; [|split; [|split]]].
  - rewrite createSession_result. simpl. eexists. split; [reflexivity|].
    simpl. split; [apply href_base_connect_url|reflexivity].
  - unfold new_provider in Hp, Hp'. simpl in Hp'.
    destruct (negb (truthy (str_or (str_or (opt_str (cfg_apiKey c)) (opt_str env)) [])));
      [discriminate|].
    injection Hp as <-. injection Hp' as <-. reflexivity.
  - unfold new_provider in Hp'. simpl in Hp'.
    destruct (negb (truthy (str_or (str_or (opt_str (cfg_apiKey c)) (opt_str env)) [])));
      [discriminate|].
    injection Hp' as <-. reflexivity.
  - apply href_base_transcribe_url.
  - reflexivity.
Qed.

Lemma C10_witness :
  createSession custom_provider None [] = createSession default_provider None []
  /\ href_base (transcribe_url custom_provider None)
     = js "https://proxy.example/v2/listen"
  /\ (exists k, socket (fst (createSession custom_provider None [])) = Some k
                /\ href_base (url k) = js "wss://api.deepgram.com/v1/listen").
Proof.
  destruct (C10_stream_url_is_fixed key_only None
              (Some (js " https://proxy.example/v2// "))
              default_provider custom_provider None [] eq_refl eq_refl)
    as (H1 & H2 & _ & H4 & _).
  split; [exact H2|]. split; [exact H4|].
  destruct H1 as (k & Hk & Hu & _). exists k. split; assumption.
Defined.

(** * Further properties of the code *)

(** ** The utility functions *)

Lemma drop_while_head {A} (p : A -> bool) (s : list A) (c : A) :
  head (drop_while p s) = Some c -> p c = false.
Proof.
  induction s as [|x r IH]; simpl; [discriminate|].
  destruct (p x) eqn:E; [exact IH|].
  simpl. intros H. injection H as <-. exact E.
Qed.

Lemma last_rev {A} (l : list A) : last (rev l) = head l.
Proof.
  destruct l as [|x r]; [reflexivity|].
  simpl. apply last_snoc.
Qed.

Lemma forallb_eqb_repeat (pre : jsstring) :
  forallb (N.eqb SLASH) pre = true -> pre = repeat SLASH (length pre).
Proof.
  induction pre as [|x r IH]; cbn [forallb length repeat]; [reflexivity|].
  intros H. apply andb_true_iff in H as [Hx Hr].
  apply N.eqb_eq in Hx. subst x. f_equal. apply IH, Hr.
Qed.

Lemma rev_repeat {A} (x : A) (n : nat) : rev (repeat x n) = repeat x n.
Proof.
  induction n as [|n IH]; [reflexivity|].
  simpl. rewrite IH. symmetry. apply repeat_cons.
Qed.

Lemma strip_trailing_slashes_spec (s : jsstring) :
  last (strip_trailing_slashes s) <> Some SLASH
  /\ exists n, s = strip_trailing_slashes s ++ repeat SLASH n.
Proof.
  unfold strip_trailing_slashes. split.
  - rewrite last_rev. intros H. apply drop_while_head in H.
    rewrite N.eqb_refl in H. discriminate.
  - destruct (drop_while_suffix (N.eqb SLASH) (rev s)) as (pre & Hs & Hp).
    exists (length pre).
    rewrite <- (rev_repeat SLASH), <- (forallb_eqb_repeat pre Hp).
    rewrite <- rev_app_distr, <- Hs, rev_involutive. reflexivity.
Qed.

(** X1. The normalized base URL never ends with a slash, and it differs
    from the string it was made from (the trimmed argument, or the
    fallback when the argument is absent or blank) by trailing slashes
    alone. *)
Theorem normalizeBaseUrl_strips_exactly_trailing_slashes
  (b : option jsstring) (fallback : jsstring) :
  let raw := match b with
             | Some x => if truthy (trim x) then trim x else fallback
             | None => fallback
             end in
  last (normalizeBaseUrl b fallback) <> Some SLASH
  /\ exists n, raw = normalizeBaseUrl b fallback ++ repeat SLASH n.
Proof.
  intros raw.
  assert (H : normalizeBaseUrl b fallback = strip_trailing_slashes raw).
  { unfold normalizeBaseUrl, raw, str_or. destruct b; reflexivity. }
  rewrite H. apply strip_trailing_slashes_spec.
Qed.

Lemma trimStart_nil_iff (s : jsstring) :
  drop_while is_space s = [] <-> forallb is_space s = true.
Proof.
  induction s as [|c r IH]; simpl; [tauto|].
  destruct (is_space c); simpl; [exact IH|].
  split; discriminate.
Qed.

Lemma trim_nil_iff (s : jsstring) :
  trim s = [] <-> forallb is_space s = true.
Proof.
  unfold trim, trimStart, trimEnd. split.
  - intros H. apply (f_equal (@rev N)) in H. rewrite rev_involutive in H.
    simpl in H. apply trimStart_nil_iff in H.
    destruct (drop_while_suffix is_space s) as (pre & Hs & Hp).
    rewrite Hs, forallb_app, Hp. simpl.
    rewrite forallb_forall in *. intros x Hx. apply H, in_rev.
    rewrite rev_involutive. exact Hx.
  - intros H. apply trimStart_nil_iff in H. rewrite H. reflexivity.
Qed.

Lemma strip_trailing_slashes_id (s : jsstring) :
  last s <> Some SLASH -> strip_trailing_slashes s = s.
Proof.
  unfold strip_trailing_slashes. intros H.
  rewrite <- (rev_involutive s) in H. rewrite last_rev in H.
  destruct (rev s) as [|c r] eqn:E; cbn [drop_while].
  - rewrite <- (rev_involutive s), E. reflexivity.
  - destruct (N.eqb_spec SLASH c) as [Heq|Hne].
    + exfalso. apply H. rewrite <- Heq. reflexivity.
    + rewrite <- E. apply rev_involutive.
Qed.

(** X2. An absent or blank base URL gives the fallback without its
    trailing slashes; a non-empty base URL without white space at its
    ends and without a trailing slash is kept as it is. *)
Theorem normalizeBaseUrl_fallback_and_identity
  (b : option jsstring) (fallback : jsstring) :
  (match b with
   | Some x => forallb is_space x = true
   | None => True
   end ->
   normalizeBaseUrl b fallback = strip_trailing_slashes fallback)
  /\ (forall x, b = Some x -> clean x -> truthy x = true ->
                last x <> Some SLASH ->
                normalizeBaseUrl b fallback = x).
Proof.
  split.
  - destruct b as [x|]; [|reflexivity].
    intros H. apply trim_nil_iff in H.
    unfold normalizeBaseUrl, str_or. rewrite H. reflexivity.
  - intros x -> Hc Ht Hl. unfold normalizeBaseUrl, str_or.
    rewrite (trim_id x Hc), Ht. apply strip_trailing_slashes_id, Hl.
Qed.

Lemma normalizeBaseUrl_witness :
  normalizeBaseUrl (Some (js "   ")) (js "https://api.deepgram.com/v1/")
  = js "https://api.deepgram.com/v1"
  /\ normalizeBaseUrl (Some (js "https://proxy.example/v2"))
       (js "https://api.deepgram.com/v1")
     = js "https://proxy.example/v2".
Proof.
  split.
  - destruct (normalizeBaseUrl_fallback_and_identity (Some (js "   "))
                (js "https://api.deepgram.com/v1/")) as [H _].
    rewrite H; reflexivity.
  - destruct (normalizeBaseUrl_fallback_and_identity
                (Some (js "https://proxy.example/v2"))
                (js "https://api.deepgram.com/v1")) as [_ H].
    apply H; [reflexivity|split; reflexivity|reflexivity|].
    vm_compute. discriminate.
Defined.

Lemma is_space_SPACE : is_space SPACE = true.
Proof. reflexivity. Qed.

Lemma collapse_from_all_space (flag0 : bool) (s : jsstring) :
  forallb is_space (collapse_from flag0 s) = forallb is_space s.
Proof.
  revert flag0. induction s as [|c r IH]; intros flag0; simpl; [reflexivity|].
  destruct (is_space c) eqn:E.
  - destruct flag0; simpl; rewrite ?is_space_SPACE, IH; reflexivity.
  - simpl. rewrite E. reflexivity.
Qed.

(** X3. [readErrorResponse] gives no detail exactly when the body cannot
    be read or consists of white space only; a detail it gives is never
    the empty string. *)
Theorem readErrorResponse_none_iff_blank (text : option jsstring) :
  (readErrorResponse text = None <->
   match text with
   | Some t => forallb is_space t = true
   | None => True
   end)
  /\ readErrorResponse text <> Some [].
Proof.
  unfold readErrorResponse. destruct text as [t|]; [|split; [tauto|discriminate]].
  assert (Hb : trim (collapse_ws t) = [] <-> forallb is_space t = true).
  { rewrite trim_nil_iff. unfold collapse_ws.
    rewrite collapse_from_all_space. tauto. }
  destruct (trim (collapse_ws t)) as [|c r] eqn:E; simpl.
  - split; [tauto|discriminate].
  - split.
    + split; [destruct (length r <=? 299)%nat; discriminate|].
      intros H. apply Hb in H. discriminate.
    + destruct (length r <=? 299)%nat; discriminate.
Qed.

Lemma collapse_from_single_spaced (s : jsstring) :
  forall flag0 : bool,
    single_spaced (collapse_from flag0 s) = true
    /\ (flag0 = true -> starts_with_space (collapse_from flag0 s) = false).
Proof.
  induction s as [|c r IH]; intros flag0; simpl; [auto|].
  destruct (is_space c) eqn:E.
  - destruct (IH true) as [H1 H2]. destruct flag0.
    + auto.
    + split; [|discriminate]. cbn [single_spaced].
      rewrite is_space_SPACE, N.eqb_refl, H1, (H2 eq_refl). reflexivity.
  - destruct (IH false) as [H1 _]. simpl. rewrite E, H1. auto.
Qed.

Lemma single_spaced_app_r (a b : jsstring) :
  single_spaced (a ++ b) = true -> single_spaced b = true.
Proof.
  induction a as [|c r IH]; simpl; [tauto|].
  intros H. apply andb_true_iff in H as [_ H]. apply IH, H.
Qed.

Lemma single_spaced_app_l (a b : jsstring) :
  single_spaced (a ++ b) = true -> single_spaced a = true.
Proof.
  induction a as [|c r IH]; simpl; [reflexivity|].
  intros H. apply andb_true_iff in H as [Hc Hr].
  rewrite (IH Hr), andb_true_r.
  destruct (is_space c); [|reflexivity].
  apply andb_true_iff in Hc as [Hc1 Hc2]. rewrite Hc1. simpl.
  destruct r; [reflexivity|exact Hc2].
Qed.

Lemma trim_single_spaced (s : jsstring) :
  single_spaced s = true -> single_spaced (trim s) = true.
Proof.
  intros H. unfold trim, trimStart.
  destruct (drop_while_suffix is_space s) as (pre & Hs & _).
  rewrite Hs in H. apply single_spaced_app_r in H.
  destruct (trimEnd_prefix (drop_while is_space s)) as (post & Hp & _).
  rewrite Hp in H. apply single_spaced_app_l in H. exact H.
Qed.

(** X4. A detail that [readErrorResponse] gives is a cut of the body of
    at most 300 code units, not empty, starting with no white space,
    with no white space but single spaces, followed by nothing or by
    the ellipsis marker. *)
Theorem readErrorResponse_detail_is_normalized (text : option jsstring)
  (d : jsstring) :
  readErrorResponse text = Some d ->
  exists cut marker,
    d = cut ++ marker
    /\ (marker = [] \/ marker = ELLIPSIS)
    /\ (0 < length cut <= 300)%nat
    /\ starts_with_space cut = false
    /\ single_spaced cut = true.
Proof.
  unfold readErrorResponse. destruct text as [t|]; [|discriminate].
  set (c := trim (collapse_ws t)).
  assert (Hc : clean c) by apply trim_clean.
  assert (Hs : single_spaced c = true)
    by apply trim_single_spaced, collapse_from_single_spaced.
  destruct (truthy c) eqn:Et; simpl; [|discriminate].
  destruct (length c <=? 300)%nat eqn:El; intros H; injection H as <-.
  - exists c, []. rewrite app_nil_r.
    apply Nat.leb_le in El. destruct Hc as [Hc _].
    repeat split; auto. destruct c; [discriminate|simpl; lia].
  - exists (take 300 c), ELLIPSIS.
    apply Nat.leb_gt in El.
    repeat split; auto.
    + rewrite length_take. lia.
    + rewrite length_take. lia.
    + destruct Hc as [Hc _]. destruct c; [discriminate|exact Hc].
    + apply (single_spaced_app_l _ (drop 300 c)).
      rewrite take_drop. exact Hs.
Qed.

Lemma readErrorResponse_witness :
  exists cut marker,
    js "Invalid credentials" = cut ++ marker
    /\ (marker = [] \/ marker = ELLIPSIS)
    /\ (0 < length cut <= 300)%nat
    /\ starts_with_space cut = false
    /\ single_spaced cut = true.
Proof.
  apply (readErrorResponse_detail_is_normalized
           (Some (js "  Invalid " ++ [10%N; 9%N] ++ js "credentials  "))).
  reflexivity.
Defined.

(** ** The handshake and the socket URL *)

Lemma connect_url_get (m : jsstring) (o : STTOptions) :
  let ps := searchParams (connect_url m o) in
  params_get (js "model") ps = Some m
  /\ params_get (js "language") ps =
     match language o with
     | Some l => if truthy (trim l) then Some (trim l) else None
     | None => None
     end
  /\ params_get (js "interim_results") ps = Some (js "true")
  /\ params_get (js "punctuate") ps = Some (js "true")
  /\ params_get (js "smart_format") ps = Some (js "true")
  /\ params_get (js "vad_events") ps =
     (if flag (vadEnabled o) then Some (js "true") else None)
  /\ params_get (js "utterance_end_ms") ps =
     (if flag (wordTimestamps o) then Some (js "1000") else None).
Proof.
  unfold connect_url.
  destruct (language o) as [l|]; [destruct (truthy (trim l))|];
    destruct (flag (vadEnabled o)); destruct (flag (wordTimestamps o));
    repeat split.
Qed.

(** X5. The URL that [connect] opens always carries the session's model
    and [interim_results], [punctuate] and [smart_format] set to true;
    it carries the trimmed language exactly when the options give one
    that is not blank, [vad_events] exactly when [vadEnabled] is true,
    and [utterance_end_ms=1000] exactly when [wordTimestamps] is true;
    no parameter occurs twice. *)
Theorem connect_url_parameters (m : jsstring) (o : STTOptions) :
  let ps := searchParams (connect_url m o) in
  params_get (js "model") ps = Some m
  /\ params_get (js "language") ps =
     match language o with
     | Some l => if truthy (trim l) then Some (trim l) else None
     | None => None
     end
  /\ params_get (js "interim_results") ps = Some (js "true")
  /\ params_get (js "punctuate") ps = Some (js "true")
  /\ params_get (js "smart_format") ps = Some (js "true")
  /\ params_get (js "vad_events") ps =
     (if flag (vadEnabled o) then Some (js "true") else None)
  /\ params_get (js "utterance_end_ms") ps =
     (if flag (wordTimestamps o) then Some (js "1000") else None)
  /\ NoDup (List.map fst ps).
Proof.
  intros ps.
  destruct (connect_url_get m o) as (H1 & H2 & H3 & H4 & H5 & H6 & H7).
  repeat (split; [assumption|]).
  unfold ps, connect_url.
  destruct (language o) as [l|]; [destruct (truthy (trim l))|];
    destruct (flag (vadEnabled o)); destruct (flag (wordTimestamps o));
    apply (bool_decide_unpack _); vm_compute; reflexivity.
Qed.

Lemma connected_step (w : World) (e : event) :
  connected w <> Pending -> connected (step w e) = connected w.
Proof.
  intros H. destruct e; split_step.
  all: destruct (connected w); simpl; congruence.
Qed.

Lemma connected_run (es : list event) (w : World) :
  connected w <> Pending -> connected (run w es) = connected w.
Proof.
  revert w. induction es as [|e r IH]; intros w H; [reflexivity|].
  simpl. rewrite IH; rewrite connected_step; auto.
Qed.

Lemma deaf_step (w : World) (e : event) :
  listeners_are false false false w /\ finalTranscript (session w) = [] ->
  listeners_are false false false (step w e)
  /\ finalTranscript (session (step w e)) = [].
Proof.
  unfold listeners_are. intros [(k & Hk & Ho & He & Hi) Hf].
  destruct e; split_step; eauto 10.
Qed.

Lemma deaf_run (es : list event) (w : World) :
  listeners_are false false false w /\ finalTranscript (session w) = [] ->
  listeners_are false false false (run w es)
  /\ finalTranscript (session (run w es)) = [].
Proof.
  revert w. induction es as [|e r IH]; intros w H; [exact H|].
  simpl. apply IH, deaf_step, H.
Qed.

(** X6. The handshake of [connect] is decided by the first of the two
    events.  If the socket opens first, the promise of [connect] is
    fulfilled and stays so, and the message listeners are installed.
    If an error comes first, the promise is rejected with the
    connection error and stays so, a later open installs nothing, and
    whatever arrives afterwards the session accumulates no text. *)
Theorem connect_first_event_decides (k m : jsstring) (o : STTOptions)
  (es : list event) :
  let w0 := connect (new_session k m o) in
  connected w0 = Pending
  /\ (let w := run (step w0 EvOpen) es in
      connected w = Resolved tt /\ handlers_installed w = true)
  /\ (forall msg,
        let w := run (step w0 (EvError msg)) es in
        connected w =
        Rejected (Error (js "Deepgram WebSocket connection failed: " ++ msg))
        /\ handlers_installed w = false
        /\ finalTranscript (session w) = []).
Proof.
  intros w0. split; [reflexivity|]. split.
  - split.
    + rewrite connected_run; [reflexivity|discriminate].
    + apply installed_run. reflexivity.
  - intros msg w. split.
    + unfold w. rewrite connected_run; [reflexivity|discriminate].
    + destruct (deaf_run es (step w0 (EvError msg))) as [(x & Hx & _ & _ & Hi) Hf].
      * split; [|reflexivity]. eexists. repeat split; reflexivity.
      * unfold w, handlers_installed. rewrite Hx. auto.
Qed.

(** ** Delivery of chunks *)

Lemma delivered_step (w : World) (e : event) :
  handlers_installed w = true ->
  delivered (step w e) =
  delivered w ++ deliveries (partialCallback (session w)) [e]
  /\ partialCallback (session (step w e)) =
     match e with
     | CallOnPartial c => Some c
     | _ => partialCallback (session w)
     end.
Proof.
  unfold handlers_installed. intros H.
  destruct e; split_step; rewrite ?app_nil_r; auto.
Qed.

Lemma deliveries_cons (cb : option nat) (e : event) (r : list event) :
  deliveries cb (e :: r) =
  deliveries cb [e]
  ++ deliveries (match e with CallOnPartial c => Some c | _ => cb end) r.
Proof.
  destruct e; simpl; try reflexivity;
    destruct cb; try reflexivity;
    repeat (case_match; try reflexivity).
Qed.

(** X7. In a connected session the calls made to partial callbacks are,
    in arrival order, the chunks of the [Results] frames whose trimmed
    transcript is not empty, each handed to the callback registered
    last before the frame arrived, with its final flag, confidence and
    time; frames that arrive while no callback is registered are not
    delivered later. *)
Theorem chunks_delivered_in_arrival_order (es : list event) (w : World) :
  handlers_installed w = true ->
  delivered (run w es) =
  delivered w ++ deliveries (partialCallback (session w)) es.
Proof.
  revert w. induction es as [|e r IH]; intros w H.
  - simpl. rewrite app_nil_r. reflexivity.
  - destruct (delivered_step w e H) as [Hd Hc].
    change (run w (e :: r)) with (run (step w e) r).
    rewrite IH by (apply installed_step, H).
    rewrite Hd, Hc, (deliveries_cons _ e r), app_assoc. reflexivity.
Qed.

Lemma chunks_delivered_witness :
  delivered
    (run (open_session (js "key") (js "nova-3") vad_options)
       [EvMessage (final_result (js "lost")) 1;
        CallOnPartial 7;
        EvMessage (final_result (js " hello ")) 2;
        CallOnPartial 8;
        EvMessage (final_result (js "world")) 3])
  = [(7%nat, {| text := js "hello"; isFinal := true;
                chunk_confidence := None; timestamp := 2 |});
     (8%nat, {| text := js "world"; isFinal := true;
                chunk_confidence := None; timestamp := 3 |})].
Proof.
  rewrite chunks_delivered_in_arrival_order; reflexivity.
Defined.

(** X8. A frame that cannot be parsed, a frame of another type than
    [Results] and [UtteranceEnd], and a [Results] frame without a first
    alternative or with a blank transcript change nothing at all: no
    text is accumulated, no callback is called, no wait is settled. *)
Theorem ignored_frames_change_nothing (w : World) (data : inbound) (now : Z) :
  ignored_frame data = true -> step w (EvMessage data now) = w.
Proof.
  unfold ignored_frame. intros H. split_step.
  all: use_tests.
Qed.

Lemma ignored_frames_witness :
  let w := open_session (js "key") (js "nova-3") vad_options in
  step w (EvMessage Unparseable 0) = w
  /\ step w (EvMessage (final_result (js "   ")) 0) = w
  /\ step w (EvMessage
               (Parsed {| type := Metadata; channel := None;
                          is_final := Some true; speech_final := None |}) 0)
     = w.
Proof.
  intros w. split; [|split]; apply ignored_frames_change_nothing; reflexivity.
Defined.

(** ** Closing *)

(** X9. When the transport closes, the socket becomes [CLOSED] and the
    session fields stay as they are.  If the session has not ended, no
    wait is touched; if it has ended and a wait is registered, that
    wait is resolved, when pending, with the trimmed accumulated text
    and its timer is cleared. *)
Theorem transport_close_finalizes_only_after_end (w : World) :
  handlers_installed w = true ->
  let w' := step w EvClose in
  (exists k, socket w' = Some k /\ readyState k = CLOSED)
  /\ session w' = session w
  /\ (ended (session w) = false -> waits w' = waits w)
  /\ (forall (i : nat) (x : Wait),
         ended (session w) = true ->
         resolveTranscript (session w) = Some i ->
         waits w !! i = Some x ->
         waits w' !! i =
         Some {| promise := settle (Resolved (trim (finalTranscript (session w))))
                              (promise x);
                 timer := clearTimeout (timer x) |}).
Proof.
  unfold handlers_installed. intros H. simpl. unfold on_close.
  destruct (socket w) as [k|] eqn:Ek; [|discriminate]. rewrite H.
  set (w1 := with_socket (Some (with_readyState CLOSED k)) w).
  assert (Hs : session w1 = session w) by reflexivity.
  assert (Hw : waits w1 = waits w) by reflexivity.
  destruct (finishTranscript_keeps w1) as [Hfs Hfk].
  rewrite Hs.
  destruct (ended (session w)) eqn:Ee; simpl.
  - destruct (resolveTranscript (session w)) as [j|] eqn:Er; simpl.
    + split; [rewrite Hfk; eexists; split; reflexivity|].
      split; [rewrite Hfs; exact Hs|]. split; [discriminate|].
      intros i x _ Hi Hx. injection Hi as ->.
      rewrite (finishTranscript_wait w1 i x); rewrite ?Hs; auto.
    + split; [eexists; split; reflexivity|].
      split; [exact Hs|]. split; [discriminate|]. discriminate.
  - split; [eexists; split; reflexivity|].
    split; [exact Hs|]. split; [reflexivity|]. discriminate.
Qed.

Lemma transport_close_witness :
  let w := run (open_session (js "key") (js "nova-3") vad_options)
             [CallWaitForTranscript None;
              EvMessage (final_result (js "hello")) 0] in
  waits (step w EvClose) = waits w
  /\ waits (step (step w CallEndAudio) EvClose) !! 0%nat
     = Some {| promise := Resolved (js "hello"); timer := Cleared |}.
Proof.
  intros w. split.
  - destruct (transport_close_finalizes_only_after_end w eq_refl)
      as (_ & _ & H & _).
    apply H. reflexivity.
  - destruct (transport_close_finalizes_only_after_end (step w CallEndAudio)
                eq_refl) as (_ & _ & _ & H).
    rewrite (H 0%nat {| promise := Pending; timer := Armed DEFAULT_WAIT_MS |});
      reflexivity.
Defined.

(** ** Audio on the wire *)

Lemma audio_sent_step_ended (w : World) (e : event) :
  ended (session w) = true -> audio_sent (step w e) = audio_sent w.
Proof.
  unfold audio_sent. intros H. destruct e; split_step.
  all: rewrite ?omap_app; simpl; rewrite ?app_nil_r; try reflexivity.
  all: use_tests.
Qed.

(** X10. After [endAudio] no audio leaves the session any more: whatever
    calls and events follow, the audio chunks sent by the transport are
    those sent before. *)
Theorem no_audio_after_endAudio (w : World) (es : list event) :
  audio_sent (run (endAudio w) es) = audio_sent w.
Proof.
  assert (H : forall es w', ended (session w') = true ->
                            audio_sent (run w' es) = audio_sent w').
  { clear. induction es as [|e r IH]; intros w' H; [reflexivity|].
    simpl. rewrite IH by (apply ended_step, H).
    apply audio_sent_step_ended, H. }
  rewrite H by apply ended_endAudio.
  unfold audio_sent, endAudio. split_step.
  all: rewrite ?omap_app; simpl; rewrite ?app_nil_r; reflexivity.
Qed.

Lemma sendAudio_open_step (w : World) (a : list Byte.byte) :
  transport_open w = true -> ended (session w) = false ->
  let w' := step w (CallSendAudio a) in
  transport_open w' = true /\ ended (session w') = false
  /\ audio_sent w' = audio_sent w ++ [a].
Proof.
  intros Ho He. simpl. unfold sendAudio. rewrite Ho, He. simpl.
  apply transport_open_spec in Ho as (Hws & k & Hk & Hr).
  unfold audio_sent, transport_open. rewrite Hk. simpl.
  rewrite Hws, Hr, He, omap_app. auto.
Qed.

(** X11. On an open session that has not ended, a series of [sendAudio]
    calls puts exactly the given chunks on the wire, one frame each, in
    the order of the calls. *)
Theorem audio_chunks_sent_in_order (chunks : list (list Byte.byte))
  (w : World) :
  transport_open w = true -> ended (session w) = false ->
  audio_sent (run w (List.map CallSendAudio chunks)) = audio_sent w ++ chunks.
Proof.
  revert w. induction chunks as [|a r IH]; intros w Ho He.
  - simpl. rewrite app_nil_r. reflexivity.
  - destruct (sendAudio_open_step w a Ho He) as (Ho' & He' & Ha).
    change (run w (List.map CallSendAudio (a :: r)))
      with (run (step w (CallSendAudio a)) (List.map CallSendAudio r)).
    rewrite IH, Ha, <- app_assoc by assumption. reflexivity.
Qed.

Lemma audio_chunks_witness :
  audio_sent
    (run (open_session (js "key") (js "nova-3") vad_options)
       (List.map CallSendAudio [[Byte.x01]; []; [Byte.x02; Byte.x03]]))
  = [[Byte.x01]; []; [Byte.x02; Byte.x03]].
Proof.
  rewrite audio_chunks_sent_in_order; reflexivity.
Defined.

(** ** After [close] *)

Lemma ws_false_step (w : World) (e : event) :
  ws (session w) = false -> ws (session (step w e)) = false.
Proof.
  intros H. destruct e; split_step.
Qed.

Lemma ws_false_run (es : list event) (w : World) :
  ws (session w) = false -> ws (session (run w es)) = false.
Proof.
  revert w. induction es as [|e r IH]; intros w H; [exact H|].
  simpl. apply IH, ws_false_step, H.
Qed.

(** X12. [close] is final and harmless to repeat: closing twice is the
    same as closing once, [close] settles no wait, and whatever calls
    and events follow it the session keeps no transport and stays
    ended, so that every later [sendAudio] throws the not-connected
    error. *)
Theorem close_is_final (w : World) (es : list event) (audio : list Byte.byte) :
  close (close w) = close w
  /\ waits (close w) = waits w
  /\ ws (session (run (close w) es)) = false
  /\ ended (session (run (close w) es)) = true
  /\ sendAudio audio (run (close w) es)
     = Throw (Error (js "Deepgram session not connected")).
Proof.
  destruct (close_spec w) as (H1 & H2 & H3 & _).
  assert (Hws : ws (session (run (close w) es)) = false)
    by (apply ws_false_run, H1).
  split; [|split; [exact H3|split; [exact Hws|split]]].
  - unfold close at 1. rewrite H1.
    destruct w as [s k c l d]. unfold close. simpl.
    destruct (ws s); simpl; reflexivity.
  - apply ended_run, H2.
  - unfold sendAudio, transport_open. rewrite Hws. reflexivity.
Qed.

(** ** Settled waits *)

Lemma promise_is_resolve_wait (i j : nat) (p : promise_state jsstring)
  (t : jsstring) (l : list Wait) :
  p <> Pending -> promise_is i p l -> promise_is i p (resolve_wait j t l).
Proof.
  intros Hp (x & Hx & Hpx). unfold resolve_wait, promise_is.
  destruct (decide (j = i)) as [->|Hne].
  - rewrite list_lookup_alter_eq, Hx. simpl. eexists. split; [reflexivity|].
    simpl. rewrite Hpx. destruct p; simpl; congruence.
  - rewrite list_lookup_alter_ne by exact Hne. eauto.
Qed.

Lemma promise_is_reject_wait (i j : nat) (p : promise_state jsstring)
  (e : error) (l : list Wait) :
  p <> Pending -> promise_is i p l -> promise_is i p (reject_wait j e l).
Proof.
  intros Hp (x & Hx & Hpx). unfold reject_wait, promise_is.
  destruct (decide (j = i)) as [->|Hne].
  - rewrite list_lookup_alter_eq, Hx. simpl. eexists. split; [reflexivity|].
    simpl. rewrite Hpx. destruct p; simpl; congruence.
  - rewrite list_lookup_alter_ne by exact Hne. eauto.
Qed.

Lemma promise_is_app (i : nat) (p : promise_state jsstring) (l l' : list Wait) :
  promise_is i p l -> promise_is i p (l ++ l').
Proof.
  intros (x & Hx & Hpx). exists x. split; [|exact Hpx].
  apply lookup_app_l_Some, Hx.
Qed.

Lemma promise_is_fire (i j : nat) (p q : promise_state jsstring)
  (y : Wait) (l : list Wait) :
  p <> Pending -> l !! j = Some y -> promise y = q ->
  promise_is i p l ->
  promise_is i p (<[j := {| promise := settle (Rejected TIMEOUT_ERROR) q;
                            timer := Fired |}]> l).
Proof.
  intros Hp Hy Hq (x & Hx & Hpx). unfold promise_is.
  destruct (decide (j = i)) as [->|Hne].
  - rewrite list_lookup_insert_eq by (eapply lookup_lt_Some, Hx).
    eexists. split; [reflexivity|]. simpl.
    rewrite Hx in Hy. injection Hy as <-. rewrite <- Hq, Hpx.
    destruct p; simpl; congruence.
  - rewrite list_lookup_insert_ne by exact Hne. eauto.
Qed.

Lemma promise_is_step (i : nat) (p : promise_state jsstring) (w : World)
  (e : event) :
  p <> Pending -> promise_is i p (waits w) -> promise_is i p (waits (step w e)).
Proof.
  intros Hp H. destruct e; split_step;
    auto using promise_is_resolve_wait, promise_is_reject_wait, promise_is_app.
  all: eapply promise_is_fire; eauto.
Qed.

Lemma waits_length_step (w : World) (e : event) :
  (length (waits w) <= length (waits (step w e)))%nat.
Proof.
  destruct e; split_step; unfold resolve_wait, reject_wait;
    rewrite ?length_alter, ?length_insert, ?length_app; simpl; lia.
Qed.

(** X13. A wait is settled at most once: once its promise is resolved or
    rejected, no later event, call or timer changes the promise; and a
    wait, once made, is never removed. *)
Theorem settled_wait_never_changes (es : list event) (w : World) (i : nat)
  (x : Wait) :
  waits w !! i = Some x ->
  exists x', waits (run w es) !! i = Some x'
             /\ (promise x <> Pending -> promise x' = promise x).
Proof.
  revert w x. induction es as [|e r IH]; intros w x Hx; [eauto|].
  assert (Hstep : exists y, waits (step w e) !! i = Some y
                            /\ (promise x <> Pending -> promise y = promise x)).
  { assert (Hdec : promise x = Pending \/ promise x <> Pending)
      by (destruct (promise x); [left; reflexivity|right; discriminate..]).
    destruct Hdec as [Hp|Hp].
    - destruct (lookup_lt_is_Some_2 (waits (step w e)) i) as [y Hy].
      + eapply Nat.lt_le_trans; [eapply lookup_lt_Some, Hx|].
        apply waits_length_step.
      + exists y. split; [exact Hy|]. congruence.
    - destruct (promise_is_step i (promise x) w e Hp) as (y & Hy & Hpy).
      + exists x. auto.
      + exists y. auto. }
  destruct Hstep as (y & Hy & Hpy).
  destruct (IH (step w e) y Hy) as (x' & Hx' & Hpx').
  exists x'. split; [exact Hx'|].
  intros Hp. rewrite Hpx', Hpy; auto. rewrite Hpy; auto.
Qed.

Lemma settled_wait_witness :
  exists x',
    waits (run (run (open_session (js "key") (js "nova-3") vad_options)
                  [CallWaitForTranscript (Some 100%Z); CallEndAudio; EvClose])
             [EvTimer 0; EvError (js "late"); EvClose; CallClose]) !! 0%nat
    = Some x'
    /\ (Resolved ([] : jsstring) <> Pending -> promise x' = Resolved []).
Proof.
  apply (settled_wait_never_changes
           [EvTimer 0; EvError (js "late"); EvClose; CallClose]
           (run (open_session (js "key") (js "nova-3") vad_options)
              [CallWaitForTranscript (Some 100%Z); CallEndAudio; EvClose])
           0%nat {| promise := Resolved []; timer := Cleared |}).
  reflexivity.
Defined.

(** X14. A transport error rejects the registered wait, when pending,
    with the transport error, but neither clears its timer nor closes
    the session; when the timer fires afterwards the promise keeps the
    transport error and the session is force-closed. *)
Theorem transport_error_leaves_timer_armed (w : World) (msg : jsstring)
  (i : nat) (ms : Z) :
  handlers_installed w = true ->
  rejectTranscript (session w) = Some i ->
  waits w !! i = Some {| promise := Pending; timer := Armed ms |} ->
  let w1 := step w (EvError msg) in
  let w2 := step w1 (EvTimer i) in
  waits w1 !! i =
  Some {| promise := Rejected (transport_error msg); timer := Armed ms |}
  /\ session w1 = session w
  /\ waits w2 !! i =
     Some {| promise := Rejected (transport_error msg); timer := Fired |}
  /\ ws (session w2) = false
  /\ ended (session w2) = true.
Proof.
  intros Hi Hr Hx w1 w2. unfold handlers_installed in Hi.
  assert (H1 : waits w1 !! i =
               Some {| promise := Rejected (transport_error msg);
                       timer := Armed ms |}).
  { unfold w1. split_step.
    all: unfold reject_wait; rewrite list_lookup_alter_eq, Hx; reflexivity. }
  assert (Hs : session w1 = session w) by (unfold w1; split_step).
  split; [exact H1|]. split; [exact Hs|].
  unfold w2. simpl. unfold on_timer. rewrite H1.
  match goal with |- context [close ?v] =>
    destruct (close_spec v) as (C1 & C2 & C3 & _) end.
  rewrite C1, C2, C3. simpl.
  rewrite list_lookup_insert_eq by (eapply lookup_lt_Some, H1). auto.
Qed.

Lemma transport_error_witness :
  let w := run (open_session (js "key") (js "nova-3") vad_options)
             [CallWaitForTranscript (Some 100%Z)] in
  waits (step (step w (EvError (js "reset"))) (EvTimer 0)) !! 0%nat
  = Some {| promise := Rejected (transport_error (js "reset")); timer := Fired |}.
Proof.
  intros w.
  destruct (transport_error_leaves_timer_armed w (js "reset") 0%nat 100%Z
              eq_refl eq_refl eq_refl) as (_ & _ & H & _).
  exact H.
Defined.

(** ** The provider *)

Lemma normalizeBaseUrl_last (b : option jsstring) (fallback : jsstring) :
  last (normalizeBaseUrl b fallback) <> Some SLASH.
Proof. unfold normalizeBaseUrl. apply strip_trailing_slashes_spec. Qed.

Lemma chosen_key_eq (c : DeepgramConfig) (env_key : option jsstring) :
  str_or (str_or (opt_str (cfg_apiKey c)) (opt_str env_key)) []
  = chosen_key c env_key.
Proof.
  unfold chosen_key, str_or, opt_str.
  destruct (cfg_apiKey c) as [[|x k]|]; destruct env_key as [[|y e]|];
    reflexivity.
Qed.

(** X15. The constructor takes the key of the configuration when it is
    not empty and the key of the environment otherwise; with neither it
    throws.  A provider it makes has every absent setting filled from
    the defaults and every given one kept, and a base URL (the given
    one, or the default when absent or blank) that does not end with a
    slash. *)
Theorem new_provider_key_and_defaults (c : DeepgramConfig)
  (env_key : option jsstring) :
  (chosen_key c env_key = [] ->
   new_provider c env_key = Throw (Error (js "DEEPGRAM_API_KEY is required")))
  /\ (chosen_key c env_key <> [] ->
      exists p,
        new_provider c env_key = Ok p
        /\ rc_apiKey (config p) = chosen_key c env_key
        /\ rc_model (config p) = default (js "nova-3") (cfg_model c)
        /\ rc_language (config p) = default (js "en") (cfg_language c)
        /\ rc_wordTimestamps (config p) = default false (cfg_wordTimestamps c)
        /\ rc_timeoutMs (config p) = default (of_Z 30000) (cfg_timeoutMs c)
        /\ baseUrl p =
           normalizeBaseUrl (cfg_baseUrl c) (js "https://api.deepgram.com/v1")
        /\ last (baseUrl p) <> Some SLASH).
Proof.
  unfold new_provider. rewrite chosen_key_eq. split.
  - intros ->. reflexivity.
  - intros Hk. destruct (chosen_key c env_key) as [|x k] eqn:E; [congruence|].
    simpl. eexists. split; [reflexivity|]. simpl.
    repeat (split; [reflexivity|]).
    assert (Hb : normalizeBaseUrl (Some (default DEFAULT_baseUrl (cfg_baseUrl c)))
                   DEFAULT_baseUrl
                 = normalizeBaseUrl (cfg_baseUrl c) DEFAULT_baseUrl)
      by (destruct (cfg_baseUrl c); reflexivity).
    rewrite Hb. split; [reflexivity|].
    apply normalizeBaseUrl_last.
Qed.

Lemma new_provider_witness :
  (exists p, new_provider key_only (Some (js "other")) = Ok p
             /\ rc_apiKey (config p) = js "key"
             /\ baseUrl p = js "https://api.deepgram.com/v1")
  /\ new_provider
       {| cfg_apiKey := Some []; cfg_baseUrl := None; cfg_model := None;
          cfg_language := None; cfg_wordTimestamps := None;
          cfg_timeoutMs := None |} None
     = Throw (Error (js "DEEPGRAM_API_KEY is required")).
Proof.
  split.
  - destruct (new_provider_key_and_defaults key_only (Some (js "other")))
      as [_ H].
    destruct H as (p & Hp & Hk & _ & _ & _ & _ & Hb & _); [discriminate|].
    exists p. split; [exact Hp|]. split; [exact Hk|]. rewrite Hb. reflexivity.
  - apply new_provider_key_and_defaults. reflexivity.
Defined.

Lemma transcribe_url_get (p : DeepgramProvider) (o : option STTOptions) :
  let ps := searchParams (transcribe_url p o) in
  let lang := trim (str_or (opt_str (o ≫= language)) (rc_language (config p))) in
  params_get (js "model") ps = Some (rc_model (config p))
  /\ (truthy lang = true -> params_get (js "language") ps = Some lang)
  /\ params_get (js "punctuate") ps = Some (js "true")
  /\ params_get (js "smart_format") ps = Some (js "true")
  /\ (flag (o ≫= wordTimestamps) || rc_wordTimestamps (config p) = true ->
      params_get (js "utterances") ps = Some (js "true")).
Proof.
  unfold transcribe_url.
  destruct (truthy (trim (str_or (opt_str (o ≫= language))
                            (rc_language (config p)))));
    destruct (flag (o ≫= wordTimestamps) || rc_wordTimestamps (config p));
    repeat split; discriminate.
Qed.

Lemma Math_max_1 (t : number) :
  num_lt (Math_max (of_Z 1) t) (of_Z 1) = false
  /\ (forall q, t = Finite q ->
                ((inject_Z 1 < q)%Q -> Math_max (of_Z 1) t = Finite q)
                /\ ((q <= inject_Z 1)%Q -> Math_max (of_Z 1) t = of_Z 1))
  /\ (t = NaN -> Math_max (of_Z 1) t = NaN).
Proof.
  split; [|split].
  - destruct t as [q| | |]; try reflexivity.
    unfold Math_max, of_Z, num_lt.
    destruct (Qle_bool q (inject_Z 1)) eqn:E; cbn [negb].
    + reflexivity.
    + apply negb_false_iff, Qle_bool_iff, Qlt_le_weak, Qnot_le_lt.
      intros H. apply Qle_bool_iff in H. congruence.
  - intros q ->. unfold Math_max, of_Z, num_lt. split.
    + intros Hq. destruct (Qle_bool q (inject_Z 1)) eqn:E; [|reflexivity].
      apply Qle_bool_iff in E. exfalso. exact (Qlt_not_le _ _ Hq E).
    + intros Hq. apply Qle_bool_iff in Hq. rewrite Hq. reflexivity.
  - intros ->. reflexivity.
Qed.



(** X17. [transcribe] resolves exactly when the request gives a response
    with a success status whose payload parses and whose top transcript
    is not blank; the value is that transcript trimmed, so it is never
    empty and has no white space at its ends.  A rejected request and a
    payload that does not parse reject with the same error. *)
Theorem transcribe_resolves_iff (out : fetch_outcome) (s : jsstring) :
  (transcribe_response out = Ok s <->
   exists r d t,
     out = Responds r /\ ok r = true /\ body_json r = Ok d
     /\ top_transcript d = Some t /\ trim t = s /\ s <> [])
  /\ (transcribe_response out = Ok s -> clean s /\ truthy s = true)
  /\ (forall e, out = FetchRejects e -> transcribe_response out = Throw e)
  /\ (forall r e, out = Responds r -> ok r = true -> body_json r = Throw e ->
                  transcribe_response out = Throw e).
Proof.
  assert (Hiff : transcribe_response out = Ok s <->
                 exists r d t,
                   out = Responds r /\ ok r = true /\ body_json r = Ok d
                   /\ top_transcript d = Some t /\ trim t = s /\ s <> []).
  { unfold transcribe_response, payload_transcript. split.
    - intros H. destruct out as [|e|r]; [discriminate|discriminate|].
      destruct (ok r) eqn:Eok; simpl in H; [|discriminate].
      destruct (body_json r) as [d|e] eqn:Ej; [|discriminate].
      destruct (top_transcript d) as [t|] eqn:Et; simpl in H; [|discriminate].
      destruct (truthy (trim t)) eqn:Ett; [|discriminate].
      injection H as <-. exists r, d, t.
      repeat split; auto. intros Hn. rewrite Hn in Ett. discriminate.
    - intros (r & d & t & -> & Hok & Hj & Ht & Hs & Hn).
      rewrite Hok, Hj, Ht. simpl. rewrite Hs.
      destruct s; [congruence|reflexivity]. }
  split; [exact Hiff|]. split; [|split].
  - intros H. apply Hiff in H as (r & d & t & _ & _ & _ & _ & <- & Hn).
    split; [apply trim_clean|]. destruct (trim t); [congruence|reflexivity].
  - intros e ->. reflexivity.
  - intros r e -> Hok Hj. unfold transcribe_response. rewrite Hok, Hj. reflexivity.
Qed.

Lemma transcribe_resolves_witness :
  transcribe_response
    (Responds {| status := 200; body_text := None;
                 body_json := Ok (payload_with (Some (js " hello world "))) |})
  = Ok (js "hello world").
Proof.
  apply transcribe_resolves_iff.
  eexists _, _, _. repeat split; try reflexivity. discriminate.
Defined.



Lemma readErrorResponse_blank_witness :
  readErrorResponse (Some (js "   " ++ [10%N; 13%N; 9%N])) = None.
Proof.
  apply readErrorResponse_none_iff_blank. reflexivity.
Defined.

(** X19. [createSession] performs exactly one action, the opening of a
    socket in state [CONNECTING] that carries the key in its
    [Authorization] header, and leaves the promise of the handshake
    pending.  In the URL the model is the provider's.  For the language
    and the word-timestamp flag a property that the caller's options
    have decides, whatever its value: a blank or undefined language
    gives no language, a false or undefined flag gives no
    [utterance_end_ms]; the provider's value is used only when the
    options are missing or lack the property.  [vad_events] is asked
    for only when the caller's options enable it. *)
Theorem createSession_caller_options_decide (p : DeepgramProvider)
  (o : option STTOptions) (log : list io_action) :
  let w := fst (createSession p o log) in
  let text_of (l : option jsstring) :=
    match l with
    | Some l => if truthy (trim l) then Some (trim l) else None
    | None => None
    end in
  let stamp_of (b : bool) := if b then Some (js "1000") else None in
  exists k,
    socket w = Some k
    /\ snd (createSession p o log) = log ++ [OpenSocket (url k) (authorization k)]
    /\ readyState k = CONNECTING
    /\ authorization k = js "Token " ++ rc_apiKey (config p)
    /\ connected w = Pending
    /\ href_base (url k) = STREAM_URL
    /\ params_get (js "model") (searchParams (url k)) = Some (rc_model (config p))
    /\ params_get (js "language") (searchParams (url k)) =
       match caller_property o language_property with
       | Present v => text_of v
       | Absent => text_of (Some (rc_language (config p)))
       end
    /\ params_get (js "utterance_end_ms") (searchParams (url k)) =
       match caller_property o wordTimestamps_property with
       | Present v => stamp_of (flag v)
       | Absent => stamp_of (rc_wordTimestamps (config p))
       end
    /\ params_get (js "vad_events") (searchParams (url k)) =
       (if flag (o ≫= vadEnabled) then Some (js "true") else None).
Proof.
  intros w text_of stamp_of. unfold w. rewrite createSession_result. simpl.
  eexists. split; [reflexivity|]. simpl.
  split; [reflexivity|]. split; [reflexivity|]. split; [reflexivity|].
  split; [reflexivity|]. split; [apply href_base_connect_url|].
  destruct (connect_url_get (rc_model (config p)) (session_options p o))
    as (H1 & H2 & _ & _ & _ & H6 & H7).
  split; [exact H1|].
  unfold text_of, stamp_of, caller_property.
  destruct o as [o|]; simpl in *.
  - split; [|split].
    + rewrite H2. unfold language. simpl.
      destruct (language_property o); reflexivity.
    + rewrite H7. unfold wordTimestamps. simpl.
      destruct (wordTimestamps_property o) as [|v]; simpl;
        [destruct (rc_wordTimestamps (config p)); reflexivity|reflexivity].
    + rewrite H6. unfold vadEnabled. simpl.
      destruct (vadEnabled_property o); reflexivity.
  - split; [|split].
    + rewrite H2. reflexivity.
    + rewrite H7. unfold wordTimestamps. simpl.
      destruct (rc_wordTimestamps (config p)); reflexivity.
    + exact H6.
Qed.

Lemma createSession_witness :
  exists k,
    socket (fst (createSession timestamps_provider (Some undefined_options) []))
    = Some k
    /\ params_get (js "language") (searchParams (url k)) = None
    /\ params_get (js "utterance_end_ms") (searchParams (url k)) = None.
Proof.
  destruct (createSession_caller_options_decide timestamps_provider
              (Some undefined_options) [])
    as (k & Hk & _ & _ & _ & _ & _ & _ & Hl & Hu & _).
  exists k. split; [exact Hk|]. split; [exact Hl|exact Hu].
Defined.

(** ** The plugin *)

Lemma new_provider_unfold (c : DeepgramConfig) (env_key : option jsstring) :
  new_provider c env_key =
  if negb (truthy (chosen_key c env_key))
  then Throw (Error (js "DEEPGRAM_API_KEY is required"))
  else Ok {| config :=
               {| rc_apiKey := chosen_key c env_key;
                  rc_baseUrl := default DEFAULT_baseUrl (cfg_baseUrl c);
                  rc_model := default DEFAULT_model (cfg_model c);
                  rc_language := default DEFAULT_language (cfg_language c);
                  rc_wordTimestamps :=
                    default DEFAULT_wordTimestamps (cfg_wordTimestamps c);
                  rc_timeoutMs := default DEFAULT_timeoutMs (cfg_timeoutMs c) |};
             baseUrl :=
               normalizeBaseUrl
                 (Some (default DEFAULT_baseUrl (cfg_baseUrl c)))
                 DEFAULT_baseUrl |}.
Proof. unfold new_provider. rewrite chosen_key_eq. reflexivity. Qed.

(** X20. [init] registers a provider exactly when a key is found (in the
    configuration or the environment), the model (given or default) is
    one of the five supported names and the timeout (given or default)
    is not a number below 1000 or above 300000: it is [NaN] or a
    finite number between 1000 and 300000.  On success it registers
    exactly one provider, the one it keeps, and logs one information
    line; on failure it registers nothing, logs one error line that
    carries the error, and throws that error. *)
Theorem init_registers_iff_config_valid (show : number -> jsstring)
  (c : DeepgramConfig) (env_key : option jsstring) (st : Plugin) :
  let r := fst (init show c env_key st) in
  let st' := snd (init show c env_key st) in
  let timeout := default (of_Z 30000) (cfg_timeoutMs c) in
  (r = Ok tt <->
   chosen_key c env_key <> []
   /\ In (default (js "nova-3") (cfg_model c))
        [js "nova-3"; js "nova-2"; js "nova"; js "enhanced"; js "base"]
   /\ (timeout = NaN \/ within_range timeout))
  /\ (r = Ok tt ->
      exists p, new_provider c env_key = Ok p
                /\ provider st' = Some p
                /\ registered st' = registered st ++ [p]
                /\ host_log st' =
                   host_log st ++ [LogInfo (js "Deepgram STT provider registered")])
  /\ (forall e, r = Throw e ->
                registered st' = registered st
                /\ host_log st' =
                   host_log st ++
                   [LogError (js "Failed to register Deepgram STT: "
                              ++ error_to_string e)]).
Proof.
  intros r st' timeout. unfold r, st', init.
  rewrite new_provider_unfold.
  destruct (chosen_key c env_key) as [|x k] eqn:Ek; cbn [truthy negb].
  - simpl. split; [split; [discriminate|intros [H _]; congruence]|].
    split; [discriminate|]. intros e He. injection He as <-. auto.
  - set (p := {| config := _; baseUrl := _ |}).
    pose proof (validate_Ok_iff show p) as Hv. simpl in Hv.
    destruct (validate show p) as [[]|e] eqn:Ev; simpl.
    + destruct Hv as [Hv _]. destruct (Hv eq_refl) as (_ & H2 & H3).
      split; [split; [intros _|reflexivity]|].
      { split; [discriminate|]. split; assumption. }
      split; [intros _; exists p; auto|discriminate].
    + destruct Hv as [_ Hv].
      split; [split; [discriminate|]|].
      { intros (_ & H2 & H3). apply Hv.
        split; [reflexivity|]. split; [exact H2|exact H3]. }
      split; [discriminate|]. intros e' He. injection He as <-. auto.
Qed.

Lemma init_witness :
  (exists p, registered (snd (init (fun _ => js "n") key_only None fresh_plugin))
             = [p])
  /\ registered
       (snd (init (fun _ => js "n")
               {| cfg_apiKey := None; cfg_baseUrl := None;
                  cfg_model := None; cfg_language := None;
                  cfg_wordTimestamps := None;
                  cfg_timeoutMs := Some (of_Z 999) |}
               (Some (js "envkey")) fresh_plugin))
     = [].
Proof.
  split.
  - destruct (init_registers_iff_config_valid (fun _ => js "n")
                key_only None fresh_plugin) as (H1 & H2 & _).
    destruct H2 as (p & _ & _ & Hr & _).
    + apply H1. split; [discriminate|]. split; [simpl; tauto|].
      right. split; apply Qle_bool_iff; reflexivity.
    + exists p. exact Hr.
  - destruct (init_registers_iff_config_valid (fun _ => js "n")
                {| cfg_apiKey := None; cfg_baseUrl := None;
                   cfg_model := None; cfg_language := None;
                   cfg_wordTimestamps := None;
                   cfg_timeoutMs := Some (of_Z 999) |}
                (Some (js "envkey")) fresh_plugin) as (_ & _ & H3).
    destruct (H3 (Error (js "Invalid timeout: nms (must be 1000-300000)")))
      as [Hr _]; [reflexivity|exact Hr].
Defined.
